(** * MIMIC-CXR multimodal self-supervision: training objectives

    A shallow embedding of [mm_pkg/methods/slip_mocov2.py],
    [mm_pkg/methods/slip_simclr.py] and [mm_pkg/methods/vicreg.py]:
    the feature queue of SLIP+MoCo-v2 with its in-place enqueue, the
    per-step [shared_forward] of the three objectives, and their
    [learnable_params] queries; then the training and validation steps
    built on them, the collate function, and the command-line options
    and callbacks of [main_pretrain.py].

    Tensors are rectangular nested lists that carry their shape, as a torch
    tensor does.  Python exceptions are outcomes that keep the state reached
    when they were raised.  Networks, losses and collectives live in other
    modules of the package (or in torch); they are the fields of the
    [Backend] class below. *)

From Stdlib Require Import ZArith QArith.
From Stdlib Require Znumtheory Zpow_facts.
From stdpp Require Import base numbers option list strings gmap.

Local Open Scope Z_scope.
Local Open Scope nat_scope.

(** ** Tensors *)

Module Tensor.

Record tensor2 (A : Type) := T2 {
  rows2 : nat;
  cols2 : nat;
  cells2 : list (list A)
}.

Record tensor3 (A : Type) := T3 {
  dim0 : nat;
  dim1 : nat;
  dim2 : nat;
  cells3 : list (list (list A))
}.

Arguments T2 {A} _ _ _.
Arguments rows2 {A} _.
Arguments cols2 {A} _.
Arguments cells2 {A} _.
Arguments T3 {A} _ _ _ _.
Arguments dim0 {A} _.
Arguments dim1 {A} _.
Arguments dim2 {A} _.
Arguments cells3 {A} _.

Section ops.
Context {A : Type}.

(** A matrix of [r] rows, every one of length [c]. *)
Definition matrix_wf (r c : nat) (m : list (list A)) : Prop :=
  length m = r ∧ Forall (λ row, length row = c) m.

Definition wf2 (t : tensor2 A) : Prop :=
  matrix_wf (rows2 t) (cols2 t) (cells2 t).

Definition wf3 (t : tensor3 A) : Prop :=
  length (cells3 t) = dim0 t ∧
  Forall (matrix_wf (dim1 t) (dim2 t)) (cells3 t).

Definition shape3 (t : tensor3 A) : nat * nat * nat :=
  (dim0 t, dim1 t, dim2 t).

(** [t[s, d, c]] *)
Definition get3 (t : tensor3 A) (s d c : nat) : option A :=
  m ← cells3 t !! s; r ← (m : list (list A)) !! d; (r : list A) !! c.

(** [t[i, j]] *)
Definition get2 (t : tensor2 A) (i j : nat) : option A :=
  r ← cells2 t !! i; (r : list A) !! j.

(** Transposition of a matrix whose rows have length [ncols]; the column
    count is an argument because a matrix without rows does not show
    it. *)
Fixpoint transpose {X : Type} (ncols : nat) (m : list (list X))
  : list (list X) :=
  match m with
  | [] => replicate ncols []
  | row :: rest => zip_with cons row (transpose ncols rest)
  end.

(** [t.permute(0, 2, 1)] *)
Definition permute021 (t : tensor3 A) : tensor3 A :=
  T3 (dim0 t) (dim2 t) (dim1 t) (map (transpose (dim2 t)) (cells3 t)).

(** [t[i]] on the first dimension, [0 <= i]. *)
Definition select0 (t : tensor3 A) (i : nat) : option (tensor2 A) :=
  T2 (dim1 t) (dim2 t) <$> cells3 t !! i.

(** [torch.stack((a, b))] of two matrices: their shapes must agree. *)
Definition stack2 (a b : tensor2 A) : option (tensor3 A) :=
  if decide (rows2 a = rows2 b ∧ cols2 a = cols2 b)
  then Some (T3 2 (rows2 a) (cols2 a) [cells2 a; cells2 b])
  else None.

(** The bound [i] of a slice [lo:hi] over a dimension of size [n], as
    Python normalises it: a negative bound counts from the end, and
    both are clamped to [0 .. n]. *)
Definition slice_index (n : nat) (i : Z) : nat :=
  if (i <? 0)%Z then Z.to_nat (Z.max (i + Z.of_nat n) 0)
  else Z.to_nat (Z.min i (Z.of_nat n)).

(** Broadcasting of one dimension: sizes agree, or the source has
    size 1 and is repeated. *)
Definition broadcastable (src tgt : nat) : bool :=
  bool_decide (src = tgt) || bool_decide (src = 1).

Definition expand_to {X : Type} (tgt : nat) (l : list X) : list X :=
  if decide (length l = tgt) then l
  else match l with
       | [x] => replicate tgt x
       | _ => l
       end.

(** [dst[:, :, lo:hi] = src], in place in torch; here the new contents
    of [dst].  [None] is torch's RuntimeError when [src] cannot be
    broadcast to the shape of the slice; nothing is written then. *)
Definition setitem_last (dst : tensor3 A) (lo hi : Z) (src : tensor3 A)
  : option (tensor3 A) :=
  let start := slice_index (dim2 dst) lo in
  let stop := slice_index (dim2 dst) hi in
  let len := stop - start in
  if broadcastable (dim0 src) (dim0 dst)
     && broadcastable (dim1 src) (dim1 dst)
     && broadcastable (dim2 src) len
  then
    let value :=
      expand_to (dim0 dst)
        (map (λ m, expand_to (dim1 dst) (map (expand_to len) m))
             (cells3 src)) in
    Some (T3 (dim0 dst) (dim1 dst) (dim2 dst)
            (zip_with
               (zip_with (λ row new,
                  take start row ++ new ++ drop (start + len) row))
               (cells3 dst) value))
  else None.

(** Column [c] of stream [s]: the vector [t[s, :, c]]. *)
Definition column (t : tensor3 A) (s c : nat) : option (list A) :=
  m ← cells3 t !! s; mapM (λ r : list A, r !! c) (m : list (list A)).

(** The vector [t[:, d, c]] along the first dimension. *)
Definition fibre0 (t : tensor3 A) (d c : nat) : option (list A) :=
  mapM (λ m : list (list A), r ← m !! d; (r : list A) !! c) (cells3 t).

(** Row [i] of stream [s]: the vector [t[s, i, :]]. *)
Definition row (t : tensor3 A) (s i : nat) : option (list A) :=
  m ← cells3 t !! s; (m : list (list A)) !! i.

(** [normalize(t, dim=1)] of a matrix, given the normalisation of one
    vector: every row is normalised. *)
Definition normalize2_dim1 (nv : list A → list A) (t : tensor2 A)
  : tensor2 A :=
  T2 (rows2 t) (cols2 t) (map nv (cells2 t)).

(** [normalize(t, dim=0)] of a 3-d tensor: the vectors that are
    normalised are the fibres [t[:, d, c]] along the first dimension. *)
Definition normalize3_dim0 (nv : list A → list A) (t : tensor3 A)
  : tensor3 A :=
  let fibres :=  (* shape (dim1, dim2, dim0) *)
    map (transpose (dim2 t)) (transpose (dim1 t) (cells3 t)) in
  let normed := map (map nv) fibres in
  T3 (dim0 t) (dim1 t) (dim2 t)
     (transpose (dim0 t) (map (transpose (dim0 t)) normed)).

End ops.

End Tensor.

Import Tensor.

(** ** Exceptions and the state monad of a method call *)

Inductive exn : Set :=
  | AssertionError
  | ZeroDivisionError
  | RuntimeError
  | IndexError.

(** What a call on [self] ends in: a value or an exception, each with the
    state of [self] at that point (an in-place write made before a raise
    stays made). *)
Inductive outcome (S X : Type) : Type :=
  | Returned (x : X) (s : S)
  | Raised (e : exn) (s : S).

Arguments Returned {S X} _ _.
Arguments Raised {S X} _ _.

Definition M (S X : Type) : Type := S → outcome S X.

Definition ret {S X : Type} (x : X) : M S X := λ s, Returned x s.

Definition bind {S X Y : Type} (m : M S X) (k : X → M S Y) : M S Y :=
  λ s, match m s with
       | Returned x s' => k x s'
       | Raised e s' => Raised e s'
       end.

Definition raise {S X : Type} (e : exn) : M S X := λ s, Raised e s.

Definition get_self {S : Type} : M S S := λ s, Returned s s.

Definition modify {S : Type} (f : S → S) : M S unit :=
  λ s, Returned tt (f s).

(** [assert b], with assertions enabled (no [-O]). *)
Definition py_assert {S : Type} (b : bool) : M S unit :=
  if b then ret tt else raise AssertionError.

(** [a % b] on Python integers: the result has the sign of [b], as
    [Z.modulo] has; a zero divisor raises. *)
Definition py_mod {S : Type} (a b : Z) : M S Z :=
  if decide (b = 0%Z) then raise ZeroDivisionError else ret (a mod b)%Z.

(** A torch call that can fail on the shapes of its arguments. *)
Definition torch_call {S X : Type} (r : option X) : M S X :=
  match r with
  | Some x => ret x
  | None => raise RuntimeError
  end.

Declare Scope py_scope.
Delimit Scope py_scope with py.
Notation "'let*' x ':=' m 'in' k" := (bind m (λ x, k))
  (at level 10, x name, m at level 100, k at level 200) : py_scope.

(** The state a call ends in, and the value it returned. *)
Definition final_state {S X : Type} (o : outcome S X) : S :=
  match o with
  | Returned _ s => s
  | Raised _ s => s
  end.

Definition returned {S X : Type} (o : outcome S X) : option X :=
  match o with
  | Returned x _ => Some x
  | Raised _ _ => None
  end.

(** ** The collaborators of the methods

    The names imported from [..methods.base], [..losses] and
    [..model_utils.misc_utils], and the torch functions the three files
    call.  A forward pass is a function of the state of the sub-module
    (its parameters and buffers) and of its input.  The random permutation
    of a batch shuffle is drawn outside and passed in. *)

Class Backend := {
  scalar : Type;
  radd : scalar → scalar → scalar;
  rmul : scalar → scalar → scalar;
  rdiv : scalar → scalar → scalar;
  rint : Z → scalar;
  Img : Type;
  Images : Type;
  TextEnc : Type;
  Net : Type;
  Idx : Type;
  Rand : Type;
  torch_stack : list Img → Images;
  img_forward : Net → Images → tensor2 scalar;
  text_forward : Net → TextEnc → tensor2 scalar;
  head_forward : Net → tensor2 scalar → tensor2 scalar;
  ema : Net → Net → scalar → Net;
  all_gather : tensor2 scalar → tensor2 scalar;
  gather : tensor2 scalar → tensor2 scalar;
  normalize_vec : list scalar → list scalar;
  clip_loss : tensor2 scalar → tensor2 scalar → scalar → list scalar;
  mean : list scalar → scalar;
  mocov2_loss :
    tensor2 scalar → tensor2 scalar → tensor2 scalar → scalar → scalar;
  _batch_shuffle_ddp : Rand → Images → Images * Idx;
  _batch_unshuffle_ddp : tensor2 scalar → Idx → tensor2 scalar;
  NT_Xent : Z → scalar → Z → tensor2 scalar → tensor2 scalar → scalar;
  vicreg_loss :
    tensor2 scalar → tensor2 scalar → scalar → scalar → scalar → scalar
}.

(** The sub-modules a method owns, by attribute name. *)
Inductive submodule : Set :=
  | img_backbone_
  | img_backbone_ema_
  | text_backbone_
  | img_projector_
  | text_projector_
  | mocov2_projector_
  | mocov2_projector_ema_
  | simclr_projector_
  | vicreg_projector_.

#[global] Instance submodule_eq_dec : EqDecision submodule.
Proof. solve_decision. Defined.

(** One entry of [learnable_params]: [{"type": ..., "params":
    self.<module>.parameters()}]. *)
Record param_group : Set := ParamGroup {
  type : string;
  params : submodule
}.

Local Open Scope py_scope.

(** ** SLIP + MoCo-v2 ([slip_mocov2.py]) *)

Module SLIP_MOCOV2.
Section method.
Context `{B : Backend}.

(** The hyper-parameters the modelled methods read. *)
Record hparams_t := Hparams {
  mocov2_proj_output_dim : nat;
  queue_size : Z;
  temperature_clip : scalar;
  temperature_mocov2 : scalar;
  ema_decay : scalar;
  ssl_scale : scalar
}.

(** A call of [mocov2_loss(q, k, negatives, temperature)]; the negatives
    are the view [(l, i)]: stream [i] of the tensor stored at [l]. *)
Inductive loss_call :=
  | Mocov2LossCall (q k : tensor2 scalar) (negatives : nat * nat)
                   (temperature : scalar).

(** The object [self].  [heap] holds the storage of the 3-d tensors the
    step allocates, by address; [queue] is the address the buffer of
    that name is bound to.  [queue_ptr] is the one-element long buffer.
    [loss_calls] is a record, oldest first, of the calls made to
    [mocov2_loss]. *)
Record state := State {
  hparams : hparams_t;
  img_backbone : Net;
  img_backbone_ema : Net;
  text_backbone : Net;
  img_projector : Net;
  text_projector : Net;
  mocov2_projector : Net;
  mocov2_projector_ema : Net;
  queue : nat;
  queue_ptr : Z;
  heap : list (tensor3 scalar);
  loss_calls : list loss_call
}.

Definition set_heap (h : list (tensor3 scalar)) (s : state) : state :=
  State (hparams s) (img_backbone s) (img_backbone_ema s)
        (text_backbone s) (img_projector s) (text_projector s)
        (mocov2_projector s) (mocov2_projector_ema s)
        (queue s) (queue_ptr s) h (loss_calls s).

Definition set_queue_ptr (p : Z) (s : state) : state :=
  State (hparams s) (img_backbone s) (img_backbone_ema s)
        (text_backbone s) (img_projector s) (text_projector s)
        (mocov2_projector s) (mocov2_projector_ema s)
        (queue s) p (heap s) (loss_calls s).

Definition set_img_backbone_ema (n : Net) (s : state) : state :=
  State (hparams s) (img_backbone s) n
        (text_backbone s) (img_projector s) (text_projector s)
        (mocov2_projector s) (mocov2_projector_ema s)
        (queue s) (queue_ptr s) (heap s) (loss_calls s).

Definition set_mocov2_projector_ema (n : Net) (s : state) : state :=
  State (hparams s) (img_backbone s) (img_backbone_ema s)
        (text_backbone s) (img_projector s) (text_projector s)
        (mocov2_projector s) n
        (queue s) (queue_ptr s) (heap s) (loss_calls s).

Definition record_call (c : loss_call) (s : state) : state :=
  State (hparams s) (img_backbone s) (img_backbone_ema s)
        (text_backbone s) (img_projector s) (text_projector s)
        (mocov2_projector s) (mocov2_projector_ema s)
        (queue s) (queue_ptr s) (heap s) (loss_calls s ++ [c]).

(** The contents of the buffer [self.queue]. *)
Definition queue_contents (s : state) : option (tensor3 scalar) :=
  heap s !! queue s.

(** [_build_model], lines 17-46.  The sub-modules come from the
    constructors of the base package; the momentum copies start as deep
    copies of their online modules.  [noise] is the draw of
    [torch.randn(2, mocov2_proj_output_dim, queue_size)].  Line 44
    registers the draw as the buffer, line 45 binds the name to the
    new tensor [normalize(..., dim=0)] returns.  The tokenizer and the
    [requires_grad] flags play no part in the methods below and are left
    out. *)
Definition _build_model (hp : hparams_t)
    (img_backbone0 text_backbone0 img_projector0 text_projector0
       mocov2_projector0 : Net)
    (noise : tensor3 scalar) : state :=
  State hp
        img_backbone0 (* deepcopy *) img_backbone0
        text_backbone0 img_projector0 text_projector0
        mocov2_projector0 (* deepcopy *) mocov2_projector0
        1 0%Z
        [noise; normalize3_dim0 normalize_vec noise]
        [].

(** [self.queue[:, :, lo:hi] = keys] *)
Definition setitem_queue (lo hi : Z) (keys : tensor3 scalar)
  : M state unit :=
  λ s, match queue_contents s with
       | None => Raised RuntimeError s
       | Some Q =>
           match setitem_last Q lo hi keys with
           | None => Raised RuntimeError s
           | Some Q' =>
               Returned tt (set_heap (<[queue s := Q']> (heap s)) s)
           end
       end.

(** [_dequeue_and_enqueue], lines 49-64. *)
Definition _dequeue_and_enqueue (keys : tensor3 scalar)
  : M state unit :=
  let batch_size := Z.of_nat (dim1 keys) in
  let* self := get_self in
  let ptr := queue_ptr self in
  let* r := py_mod (queue_size (hparams self)) batch_size in
  let* _ := py_assert (r =? 0)%Z in
  let keys := permute021 keys in
  let* _ := setitem_queue ptr (ptr + batch_size)%Z keys in
  let* ptr := py_mod (ptr + batch_size)%Z (queue_size (hparams self)) in
  modify (set_queue_ptr ptr).

(** [ema(self.<online>, self.<target>, decay)]: the target is updated
    in place. *)
Definition ema_img_backbone : M state unit :=
  modify (λ s, set_img_backbone_ema
                 (ema (img_backbone s) (img_backbone_ema s)
                      (ema_decay (hparams s))) s).

Definition ema_mocov2_projector : M state unit :=
  modify (λ s, set_mocov2_projector_ema
                 (ema (mocov2_projector s) (mocov2_projector_ema s)
                      (ema_decay (hparams s))) s).

(** [t.clone().detach()] of the tensor stored at [l]: a new storage
    with the same contents. *)
Definition clone_detach (l : nat) : M state nat :=
  λ s, match heap s !! l with
       | None => Raised RuntimeError s
       | Some t => Returned (length (heap s)) (set_heap (heap s ++ [t]) s)
       end.

(** The contents a view [(l, i)] shows in state [s]. *)
Definition view_contents (s : state) (v : nat * nat)
  : option (tensor2 scalar) :=
  t ← heap s !! v.1; select0 t v.2.

(** [t[i]] of the tensor stored at [l]: a view, no copy. *)
Definition getitem0 (l i : nat) : M state (nat * nat) :=
  λ s, match view_contents s (l, i) with
       | None => Raised IndexError s
       | Some _ => Returned (l, i) s
       end.

(** The call [mocov2_loss(q, k, negatives, temperature)]: the loss
    reads what the view shows when it is called. *)
Definition call_mocov2_loss (q k : tensor2 scalar) (negatives : nat * nat)
    (temperature : scalar) : M state scalar :=
  λ s, match view_contents s negatives with
       | None => Raised RuntimeError s
       | Some negs =>
           Returned (mocov2_loss q k negs temperature)
                    (record_call
                       (Mocov2LossCall q k negatives temperature) s)
       end.

Definition normalize_dim1 : tensor2 scalar → tensor2 scalar :=
  normalize2_dim1 normalize_vec.

(** [shared_forward], lines 67-114.  [rnd] holds the permutations the
    two batch shuffles draw. *)
Definition shared_forward (rnd : Rand * Rand)
    (batch : list Img * list Img * TextEnc)
    (batch_idx : Z) (mode : string) : M state (gmap string scalar) :=
  let '(images1, images2, text_encodings) := batch in
  let images1 := torch_stack images1 in
  let images2 := torch_stack images2 in
  (* clip *)
  let* self := get_self in
  let image_features := img_forward (img_backbone self) images1 in
  let text_features := text_forward (text_backbone self) text_encodings in
  let image_embeddings := head_forward (img_projector self) image_features in
  let text_embeddings := head_forward (text_projector self) text_features in
  let image_embeddings := all_gather image_embeddings in
  let text_embeddings := all_gather text_embeddings in
  let c_loss :=
    mean (clip_loss image_embeddings text_embeddings
                    (temperature_clip (hparams self))) in
  (* mocov2: ema update *)
  let* _ := ema_img_backbone in
  let* _ := ema_mocov2_projector in
  let* self := get_self in
  (* original encoder output *)
  let feat1 := img_forward (img_backbone self) images1 in
  let feat2 := img_forward (img_backbone self) images2 in
  let q1 := head_forward (mocov2_projector self) feat1 in
  let q2 := head_forward (mocov2_projector self) feat2 in
  (* normalize *)
  let '(q1, q2) := (normalize_dim1 q1, normalize_dim1 q1) in
  (* shuffle for making use of BN *)
  let '(images1_k, idx_unshuffle1) := _batch_shuffle_ddp rnd.1 images1 in
  let '(images2_k, idx_unshuffle2) := _batch_shuffle_ddp rnd.2 images2 in
  (* ema encoder output *)
  let feat1_ema := img_forward (img_backbone_ema self) images1_k in
  let feat2_ema := img_forward (img_backbone_ema self) images2_k in
  let k1 := head_forward (mocov2_projector_ema self) feat1_ema in
  let k2 := head_forward (mocov2_projector_ema self) feat2_ema in
  let '(k1, k2) := (normalize_dim1 k1, normalize_dim1 k2) in
  (* undo shuffle *)
  let k1 := _batch_unshuffle_ddp k1 idx_unshuffle1 in
  let k2 := _batch_unshuffle_ddp k2 idx_unshuffle2 in
  (* loss *)
  let* queue := clone_detach (queue self) in
  let* negatives1 := getitem0 queue 1 in
  let* loss12 :=
    call_mocov2_loss q1 k2 negatives1 (temperature_mocov2 (hparams self)) in
  let* negatives0 := getitem0 queue 0 in
  let* loss21 :=
    call_mocov2_loss q2 k1 negatives0 (temperature_mocov2 (hparams self)) in
  let ssl_loss := rdiv (radd loss12 loss21) (rint 2) in
  (* update queue *)
  let* keys := torch_call (stack2 (gather k1) (gather k2)) in
  let* _ := _dequeue_and_enqueue keys in
  (* slip final loss *)
  let loss := radd c_loss (rmul (ssl_scale (hparams self)) ssl_loss) in
  ret (<["loss" := loss]>
         (<["clip_loss" := c_loss]> {["ssl_loss" := ssl_loss]})).

(** [learnable_params], lines 134-139. *)
Definition learnable_params : M state (list param_group) :=
  ret [ ParamGroup "backbone" img_backbone_;
        ParamGroup "projector" mocov2_projector_ ].

End method.
End SLIP_MOCOV2.

(** ** SLIP + SimCLR ([slip_simclr.py]) *)

Module SLIP_SIMCLR.
Section method.
Context `{B : Backend}.

Record hparams_t := Hparams {
  batch_size : Z;
  gpus : Z;
  num_nodes : Z;
  temperature : scalar;
  ssl_scale : scalar
}.

(** [self.criterion]: the [NT_Xent] object and the arguments it was
    built with. *)
Record criterion_t := Criterion {
  nt_batch_size : Z;
  nt_temperature : scalar;
  nt_world_size : Z
}.

Record state := State {
  hparams : hparams_t;
  img_backbone : Net;
  text_backbone : Net;
  img_projector : Net;
  text_projector : Net;
  criterion : criterion_t;
  simclr_projector : Net
}.

(** [_build_model], lines 17-38. *)
Definition _build_model (hp : hparams_t)
    (img_backbone0 text_backbone0 img_projector0 text_projector0
       simclr_projector0 : Net) : state :=
  State hp img_backbone0 text_backbone0 img_projector0 text_projector0
        (Criterion (batch_size hp) (temperature hp)
                   (gpus hp * num_nodes hp)%Z)
        simclr_projector0.

Definition call_criterion (c : criterion_t) (z1 z2 : tensor2 scalar)
  : scalar :=
  NT_Xent (nt_batch_size c) (nt_temperature c) (nt_world_size c) z1 z2.

(** [shared_forward], lines 41-61. *)
Definition shared_forward
    (batch : list Img * list Img * list Img * TextEnc)
    (batch_idx : Z) (mode : string) : M state (gmap string scalar) :=
  let '(images_clip, images_ssl1, images_ssl2, text_encodings) := batch in
  let images_clip := torch_stack images_clip in
  let images_ssl1 := torch_stack images_ssl1 in
  let images_ssl2 := torch_stack images_ssl2 in
  (* clip *)
  let* self := get_self in
  let image_features := img_forward (img_backbone self) images_clip in
  let text_features := text_forward (text_backbone self) text_encodings in
  let image_embeddings := head_forward (img_projector self) image_features in
  let text_embeddings := head_forward (text_projector self) text_features in
  let image_embeddings := all_gather image_embeddings in
  let text_embeddings := all_gather text_embeddings in
  let c_loss :=
    mean (clip_loss image_embeddings text_embeddings
                    (temperature (hparams self))) in
  (* simclr *)
  let feat1 := img_forward (img_backbone self) images_ssl1 in
  let feat2 := img_forward (img_backbone self) images_ssl2 in
  let z1 := head_forward (simclr_projector self) feat1 in
  let z2 := head_forward (simclr_projector self) feat2 in
  let ssl_loss := call_criterion (criterion self) z1 z2 in
  (* slip final loss *)
  let loss := radd c_loss (rmul (ssl_scale (hparams self)) ssl_loss) in
  ret (<["loss" := loss]>
         (<["clip_loss" := c_loss]> {["ssl_loss" := ssl_loss]})).

(** [learnable_params], lines 81-89. *)
Definition learnable_params : M state (list param_group) :=
  ret [ ParamGroup "backbone" img_backbone_;
        ParamGroup "backbone" text_backbone_;
        ParamGroup "projector" img_projector_;
        ParamGroup "projector" text_projector_;
        ParamGroup "projector" simclr_projector_ ].

End method.
End SLIP_SIMCLR.

(** ** VICReg ([vicreg.py]) *)

Module VICREG.
Section method.
Context `{B : Backend}.

Record hparams_t := Hparams {
  invariance_lamb : scalar;
  variance_mu : scalar;
  covariance_v : scalar
}.

Record state := State {
  hparams : hparams_t;
  img_backbone : Net;
  vicreg_projector : Net
}.

(** [_build_model], lines 16-28. *)
Definition _build_model (hp : hparams_t)
    (img_backbone0 vicreg_projector0 : Net) : state :=
  State hp img_backbone0 vicreg_projector0.

(** [shared_forward], lines 31-42. *)
Definition shared_forward (batch : list Img * list Img)
    (batch_idx : Z) (mode : string) : M state (gmap string scalar) :=
  let '(images_ssl1, images_ssl2) := batch in
  let images_ssl1 := torch_stack images_ssl1 in
  let images_ssl2 := torch_stack images_ssl2 in
  (* vicreg *)
  let* self := get_self in
  let feat1 := img_forward (img_backbone self) images_ssl1 in
  let feat2 := img_forward (img_backbone self) images_ssl2 in
  let z1 := head_forward (vicreg_projector self) feat1 in
  let z2 := head_forward (vicreg_projector self) feat2 in
  let ssl_loss :=
    vicreg_loss z1 z2 (invariance_lamb (hparams self))
                (variance_mu (hparams self))
                (covariance_v (hparams self)) in
  ret {["loss" := ssl_loss]}.

(** [learnable_params], lines 58-63. *)
Definition learnable_params : M state (list param_group) :=
  ret [ ParamGroup "backbone" img_backbone_;
        ParamGroup "projector" vicreg_projector_ ].

End method.
End VICREG.

(** ** Batch shuffle and unshuffle across replicas *)

Module Shuffle.
Section replicas.
Context {A : Type}.

(** Modelled from the spec: [gather] of [model_utils/misc_utils.py],
    which is not among the sources.  The batches of all replicas,
    ordered by rank, concatenated into the global batch. *)
Definition gather_all (xs : list (list A)) : list A := mjoin xs.

(** Modelled from the spec: the slice of a global list that corresponds
    to rank [r], [n] rows per replica. *)
Definition rank_slice {X : Type} (n r : nat) (l : list X) : list X :=
  take n (drop (r * n) l).

(** Modelled from the spec: the position of [j] in the permutation [p]
    (the first, if there were several). *)
Fixpoint index_of (j : nat) (p : list nat) : nat :=
  match p with
  | [] => 0
  | i :: p' => if decide (i = j) then 0 else S (index_of j p')
  end.

(** Modelled from the spec: the inverse mapping of the global
    permutation [p]. *)
Definition inverse_permutation (p : list nat) : list nat :=
  map (λ j, index_of j p) (seq 0 (length p)).

(** Modelled from the spec: the reordering of the global batch [g] by a
    list of indices; [None] when an index is out of range. *)
Definition reorder (g : list A) (idx : list nat) : option (list A) :=
  mapM (λ i, g !! i) idx.

(** Modelled from the spec: [_batch_shuffle_ddp] of
    [model_utils/misc_utils.py], which is not among the sources, on
    the replica of rank [r].  [xs] are the batches the replicas hold and
    [p] is the global permutation replica 0 drew and broadcast.  The
    global batch is gathered and reordered by [p]; the replica keeps the
    slice of its rank, and the rows of the inverse permutation of its
    rank as the inverse record. *)
Definition shuffle (p : list nat) (xs : list (list A)) (r : nat)
  : option (list A * list nat) :=
  x ← xs !! r;
  let n := length (x : list A) in
  rows ← reorder (gather_all xs) (rank_slice n r p);
  Some (rows, rank_slice n r (inverse_permutation p)).

(** Modelled from the spec: [_batch_unshuffle_ddp] of
    [model_utils/misc_utils.py], which is not among the sources.  [ys]
    are the batches the replicas hold now; the global batch is gathered
    and reordered by the inverse record, which leaves the rows of this
    replica. *)
Definition unshuffle (ys : list (list A)) (inverse_record : list nat)
  : option (list A) :=
  reorder (gather_all ys) inverse_record.

(** Modelled from the spec: the shuffle on every replica of the world,
    by rank. *)
Definition shuffle_world (p : list nat) (xs : list (list A))
  : option (list (list A * list nat)) :=
  mapM (shuffle p xs) (seq 0 (length xs)).

End replicas.
End Shuffle.

(** ** An exact backend on the rationals

    Small enough to run the methods on concrete batches.  Sub-modules are
    gains, the world has one replica, and the square root is exact on the
    rationals that are squares.  The losses need [exp] and [log]; they are
    replaced by rational expressions of the same arguments. *)

Module QBackend.

Definition qsum (l : list Q) : Q := foldr Qplus (0%Q) l.

Definition dot (u v : list Q) : Q := qsum (zip_with Qmult u v).

Definition sumsq (v : list Q) : Q := dot v v.

(** Exact when numerator and denominator of [Qred q] are squares. *)
Definition qsqrt (q : Q) : Q :=
  let q := Qred q in
  Qmake (Z.sqrt (Qnum q)) (Pos.sqrt (Qden q)).

Definition qmax (a b : Q) : Q := if Qle_bool a b then b else a.

Definition eps : Q := Qmake 1 1000000000000.

(** [v / max(norm(v), eps)] *)
Definition q_normalize_vec (v : list Q) : list Q :=
  let n := qmax (qsqrt (sumsq v)) eps in
  map (λ x, Qred (x / n)) v.

Definition scale (w : Q) (t : tensor2 Q) : tensor2 Q :=
  T2 (rows2 t) (cols2 t) (map (map (λ x, Qred (w * x))) (cells2 t)).

Definition q_torch_stack (imgs : list (list Q)) : tensor2 Q :=
  T2 (length imgs) (length (default [] (head imgs))) imgs.

(** [decay * target + (1 - decay) * online] *)
Definition q_ema (online target decay : Q) : Q :=
  Qred (decay * target + (1 - decay) * online).

Definition q_mean (l : list Q) : Q :=
  Qred (qsum l / inject_Z (Z.of_nat (length l))).

Definition q_clip_loss (I T : tensor2 Q) (temperature : Q) : list Q :=
  zip_with (λ u v, ((1 - dot u v) / temperature)%Q) (cells2 I) (cells2 T).

Definition q_mocov2_loss (q k negs : tensor2 Q) (temperature : Q) : Q :=
  q_mean (zip_with
          (λ u v, ((qsum (map (dot u) (transpose (cols2 negs) (cells2 negs)))
                    - dot u v) / temperature)%Q)
          (cells2 q) (cells2 k)).

Definition mse (z1 z2 : tensor2 Q) : Q :=
  q_mean (zip_with (λ u v, sumsq (zip_with Qminus u v)) (cells2 z1) (cells2 z2)).

Definition q_NT_Xent (batch_size : Z) (temperature : Q) (world_size : Z)
    (z1 z2 : tensor2 Q) : Q :=
  Qred (mse z1 z2 / temperature).

Definition q_vicreg_loss (z1 z2 : tensor2 Q) (lamb mu v : Q) : Q :=
  Qred (lamb * mse z1 z2).

Definition q_batch_shuffle_ddp (p : list nat) (x : tensor2 Q)
  : tensor2 Q * list nat :=
  match Shuffle.shuffle p [cells2 x] 0 with
  | Some (rows, record) => (T2 (rows2 x) (cols2 x) rows, record)
  | None => (x, seq 0 (rows2 x))
  end.

Definition q_batch_unshuffle_ddp (x : tensor2 Q) (record : list nat)
  : tensor2 Q :=
  match Shuffle.unshuffle [cells2 x] record with
  | Some rows => T2 (rows2 x) (cols2 x) rows
  | None => x
  end.

Definition backend : Backend := {|
  scalar := Q;
  radd := λ a b, Qred (a + b);
  rmul := λ a b, Qred (a * b);
  rdiv := λ a b, Qred (a / b);
  rint := inject_Z;
  Img := list Q;
  Images := tensor2 Q;
  TextEnc := tensor2 Q;
  Net := Q;
  Idx := list nat;
  Rand := list nat;
  torch_stack := q_torch_stack;
  img_forward := scale;
  text_forward := scale;
  head_forward := scale;
  ema := q_ema;
  all_gather := id;
  gather := id;
  normalize_vec := q_normalize_vec;
  clip_loss := q_clip_loss;
  mean := q_mean;
  mocov2_loss := q_mocov2_loss;
  _batch_shuffle_ddp := q_batch_shuffle_ddp;
  _batch_unshuffle_ddp := q_batch_unshuffle_ddp;
  NT_Xent := q_NT_Xent;
  vicreg_loss := q_vicreg_loss
|}.

End QBackend.


(** ** The values one SLIP + MoCo-v2 step computes

    Names for the intermediate tensors of [SLIP_MOCOV2.shared_forward], as
    functions of the state the step starts in and of its inputs; the
    properties below are stated with them. *)

Module Step.
Import SLIP_MOCOV2.
Section values.
Context `{B : Backend}.
Implicit Types (s : state) (batch : list Img * list Img * TextEnc).

Definition images1 batch : Images := torch_stack batch.1.1.
Definition images2 batch : Images := torch_stack batch.1.2.

(** [c_loss], line 78. *)
Definition c_loss s batch : scalar :=
  mean (clip_loss
          (all_gather (head_forward (img_projector s)
                         (img_forward (img_backbone s) (images1 batch))))
          (all_gather (head_forward (text_projector s)
                         (text_forward (text_backbone s) batch.2)))
          (temperature_clip (hparams s))).

(** [self] after the two momentum updates, lines 82-83. *)
Definition after_ema s : state :=
  set_mocov2_projector_ema
    (ema (mocov2_projector s) (mocov2_projector_ema s)
         (ema_decay (hparams s)))
    (set_img_backbone_ema
       (ema (img_backbone s) (img_backbone_ema s) (ema_decay (hparams s)))
       s).

(** The output of the MoCo projector for each view, line 87. *)
Definition projected1 s batch : tensor2 scalar :=
  head_forward (mocov2_projector s)
               (img_forward (img_backbone s) (images1 batch)).

Definition projected2 s batch : tensor2 scalar :=
  head_forward (mocov2_projector s)
               (img_forward (img_backbone s) (images2 batch)).

(** The keys [k1], [k2] after the unshuffle, line 101. *)
Definition key1 (rnd : Rand * Rand) s batch : tensor2 scalar :=
  let sh := _batch_shuffle_ddp rnd.1 (images1 batch) in
  _batch_unshuffle_ddp
    (normalize_dim1
       (head_forward (mocov2_projector_ema (after_ema s))
          (img_forward (img_backbone_ema (after_ema s)) sh.1)))
    sh.2.

Definition key2 (rnd : Rand * Rand) s batch : tensor2 scalar :=
  let sh := _batch_shuffle_ddp rnd.2 (images2 batch) in
  _batch_unshuffle_ddp
    (normalize_dim1
       (head_forward (mocov2_projector_ema (after_ema s))
          (img_forward (img_backbone_ema (after_ema s)) sh.1)))
    sh.2.

(** The argument of [_dequeue_and_enqueue], line 109. *)
Definition keys (rnd : Rand * Rand) s batch : option (tensor3 scalar) :=
  stack2 (gather (key1 rnd s batch)) (gather (key2 rnd s batch)).

(** The two calls of [mocov2_loss], lines 105-106, with the snapshot of
    the queue stored at [snap]. *)
Definition loss_call1 (rnd : Rand * Rand) s batch (snap : nat)
  : loss_call :=
  Mocov2LossCall (normalize_dim1 (projected1 s batch)) (key2 rnd s batch)
                 (snap, 1) (temperature_mocov2 (hparams s)).

Definition loss_call2 (rnd : Rand * Rand) s batch (snap : nat)
  : loss_call :=
  Mocov2LossCall (normalize_dim1 (projected1 s batch)) (key1 rnd s batch)
                 (snap, 0) (temperature_mocov2 (hparams s)).

(** The arguments of a recorded call. *)
Definition call_query (c : loss_call) : tensor2 scalar :=
  match c with Mocov2LossCall q _ _ _ => q end.

Definition call_key (c : loss_call) : tensor2 scalar :=
  match c with Mocov2LossCall _ k _ _ => k end.

Definition call_negatives (c : loss_call) : nat * nat :=
  match c with Mocov2LossCall _ _ v _ => v end.

(** [ssl_loss], lines 105-106, from negatives [Q]. *)
Definition ssl_loss (rnd : Rand * Rand) s batch (Q : tensor3 scalar)
  : option scalar :=
  n1 ← select0 Q 1;
  n0 ← select0 Q 0;
  Some (rdiv
          (radd (mocov2_loss (normalize_dim1 (projected1 s batch))
                             (key2 rnd s batch) n1
                             (temperature_mocov2 (hparams s)))
                (mocov2_loss (normalize_dim1 (projected1 s batch))
                             (key1 rnd s batch) n0
                             (temperature_mocov2 (hparams s))))
          (rint 2)).

(** [self] when the queue update starts: after the momentum updates,
    with the snapshot [Q] allocated and the two loss calls made. *)
Definition before_enqueue (rnd : Rand * Rand) s batch
    (Q : tensor3 scalar) : state :=
  let snap := length (heap s) in
  record_call (loss_call2 rnd s batch snap)
    (record_call (loss_call1 rnd s batch snap)
       (set_heap (heap s ++ [Q]) (after_ema s))).

(** The conditions under which the queue update of the step goes
    through: the buffer [Q] has shape (2, D, C) with [C] the configured
    capacity, the stacked keys [ks] have shape (2, b, D), [b] divides
    [C], and the pointer leaves room for [b] columns. *)
Definition step_ready (rnd : Rand * Rand) s batch
    (Q ks : tensor3 scalar) (D C b : nat) : Prop :=
  queue_contents s = Some Q ∧ wf3 Q ∧ shape3 Q = (2, D, C) ∧
  queue_size (hparams s) = Z.of_nat C ∧
  keys rnd s batch = Some ks ∧ wf3 ks ∧ shape3 ks = (2, b, D) ∧
  (Z.of_nat b | Z.of_nat C)%Z ∧
  (0 ≤ queue_ptr s < Z.of_nat C)%Z ∧
  (queue_ptr s + Z.of_nat b ≤ Z.of_nat C)%Z.

(** [s'] is [s] but for the contents of the buffer [queue] and for the
    pointer. *)
Definition same_but_queue s s' : Prop :=
  hparams s' = hparams s ∧
  img_backbone s' = img_backbone s ∧
  img_backbone_ema s' = img_backbone_ema s ∧
  text_backbone s' = text_backbone s ∧
  img_projector s' = img_projector s ∧
  text_projector s' = text_projector s ∧
  mocov2_projector s' = mocov2_projector s ∧
  mocov2_projector_ema s' = mocov2_projector_ema s ∧
  queue s' = queue s ∧
  loss_calls s' = loss_calls s ∧
  length (heap s') = length (heap s) ∧
  ∀ l, l ≠ queue s → heap s' !! l = heap s !! l.

(** The mapping the step returns, line 114. *)
Definition result (c ssl scale : scalar) : gmap string scalar :=
  <["loss" := radd c (rmul scale ssl)]>
    (<["clip_loss" := c]> {["ssl_loss" := ssl]}).

End values.
End Step.

(** ** Drivers and concrete inputs *)

Module Scenario.
Import SLIP_MOCOV2.

(** One enqueue per batch of keys, in order. *)
Definition enqueue_all `{B : Backend} (batches : list (tensor3 scalar))
  : M state unit :=
  foldr (λ keys rest, let* _ := _dequeue_and_enqueue keys in rest)
        (ret tt) batches.

Definition q_hparams : @hparams_t QBackend.backend :=
  @Hparams QBackend.backend 2 8 (1 # 10)%Q (7 # 100)%Q (999 # 1000)%Q 1%Q.

(** A draw of [torch.randn(2, 2, 8)]. *)
Definition q_noise : tensor3 Q :=
  T3 2 2 8 [[[3; 3; 3; 3; 3; 3; 3; 3]; [0; 0; 0; 0; 0; 0; 0; 0]];
            [[4; 4; 4; 4; 4; 4; 4; 4]; [1; 1; 1; 1; 1; 1; 1; 1]]]%Q.

(** The model after construction: capacity 8, embedding dimension 2. *)
Definition q_state : @state QBackend.backend :=
  @_build_model QBackend.backend q_hparams 1%Q 1%Q 1%Q 1%Q 2%Q q_noise.

(** Keys of shape (2, 4, 2) and of shape (2, 2, 2). *)
Definition q_keys4 : tensor3 Q :=
  T3 2 4 2 [[[1; 0]; [0; 1]; [3 # 5; 4 # 5]; [4 # 5; 3 # 5]];
            [[0; 1]; [1; 0]; [5 # 13; 12 # 13]; [12 # 13; 5 # 13]]]%Q.

Definition q_keys2 : tensor3 Q :=
  T3 2 2 2 [[[1; 0]; [0; 1]]; [[0; 1]; [1; 0]]]%Q.

Definition q_keys3 : tensor3 Q :=
  T3 2 3 2 [[[1; 0]; [0; 1]; [1; 0]]; [[0; 1]; [1; 0]; [0; 1]]]%Q.

(** The state after an enqueue of two rows and one of four: the pointer
    stands at 6. *)
Definition q_state_ptr6 : @state QBackend.backend :=
  final_state
    (@_dequeue_and_enqueue QBackend.backend q_keys4
       (final_state
          (@_dequeue_and_enqueue QBackend.backend q_keys2 q_state))).

(** The batches of the end-to-end scenario: four rows (1,0), then four
    rows (0,1), on both streams. *)
Definition rows10 : tensor3 Q :=
  T3 2 4 2 [[[1; 0]; [1; 0]; [1; 0]; [1; 0]];
            [[1; 0]; [1; 0]; [1; 0]; [1; 0]]]%Q.

Definition rows01 : tensor3 Q :=
  T3 2 4 2 [[[0; 1]; [0; 1]; [0; 1]; [0; 1]];
            [[0; 1]; [0; 1]; [0; 1]; [0; 1]]]%Q.

(** A batch of four image pairs with their text encodings, and the
    permutations of the two shuffles. *)
Definition q_images1 : list (list Q) := [[3; 4]; [5; 12]; [1; 0]; [0; 1]]%Q.
Definition q_images2 : list (list Q) := [[8; 15]; [4; 3]; [0; 2]; [7; 24]]%Q.
Definition q_text : tensor2 Q := T2 4 2 [[1; 0]; [0; 1]; [1; 0]; [0; 1]]%Q.
Definition q_rnd : list nat * list nat := ([2; 0; 3; 1], [1; 3; 0; 2]).

(** The contents of the queue of [q_state], and the keys the step on
    [q_state] enqueues. *)
Definition q_queue0 : tensor3 Q :=
  T3 2 2 8
     [[[3 # 5; 3 # 5; 3 # 5; 3 # 5; 3 # 5; 3 # 5; 3 # 5; 3 # 5];
       [0; 0; 0; 0; 0; 0; 0; 0]];
      [[4 # 5; 4 # 5; 4 # 5; 4 # 5; 4 # 5; 4 # 5; 4 # 5; 4 # 5];
       [1; 1; 1; 1; 1; 1; 1; 1]]]%Q.

Definition q_step_keys : tensor3 Q :=
  T3 2 4 2 [[[3 # 5; 4 # 5]; [5 # 13; 12 # 13]; [1; 0]; [0; 1]];
            [[8 # 17; 15 # 17]; [4 # 5; 3 # 5]; [0; 1]; [7 # 25; 24 # 25]]]%Q.

Definition q_batch : list (list Q) * list (list Q) * tensor2 Q :=
  (q_images1, q_images2, q_text).

(** A VICReg model, and the batch of two views for its step. *)
Definition q_vicreg_state : @VICREG.state QBackend.backend :=
  @VICREG._build_model QBackend.backend
    (@VICREG.Hparams QBackend.backend 25%Q 25%Q 1%Q) 1%Q 1%Q.

Definition q_vicreg_batch : list (list Q) * list (list Q) :=
  (q_images1, q_images2).

End Scenario.

(** ** The queue over many enqueues *)

Module QueueInv.
Import SLIP_MOCOV2.

(** The state the queue is in between two steps that enqueue [b] rows:
    the buffer has shape (2, D, C) with [C] the configured capacity, [b]
    divides [C], and the pointer is a multiple of [b] below [C]. *)
Definition queue_ok `{B : Backend} (s : state) (D C b : nat) : Prop :=
  ∃ Q k,
    queue_contents s = Some Q ∧ wf3 Q ∧ shape3 Q = (2, D, C) ∧
    queue_size (hparams s) = Z.of_nat C ∧
    0 < b ∧ (b | C) ∧
    queue_ptr s = Z.of_nat (k * b) ∧ k * b < C.

(** A queue of [K] slots written round-robin from slot [a], one slot for
    each element of [l]: what slot [i] holds in the end, if it was
    written at all: the last element written there. *)
Fixpoint last_in_slot {X : Type} (K a i : nat) (l : list X) : option X :=
  match l with
  | [] => None
  | x :: rest =>
      match last_in_slot K ((a + 1) mod K) i rest with
      | Some y => Some y
      | None => if decide (a = i) then Some x else None
      end
  end.

End QueueInv.


(** ** The steps Lightning calls

    [training_step] and [validation_step] run [shared_forward], read the
    losses off the mapping it returns and hand them to [self.log].  The
    calls of [self.log] are kept as a record, oldest first. *)

Module Lightning.
Section lightning.
Context `{B : Backend}.

(** A call [self.log(name, value, on_epoch=..., on_step=...,
    prog_bar=...)]. *)
Record log_call := LogCall {
  log_name : string;
  log_value : scalar;
  on_epoch : bool;
  on_step : bool;
  prog_bar : bool
}.

(** What a step can raise: an exception of [shared_forward], or the
    [KeyError] of a subscript on the mapping. *)
Inductive step_exn :=
  | Propagated (e : exn)
  | KeyError (key : string).

(** What a step ends in, with the state of [self] and the calls of
    [self.log] made by then. *)
Inductive step_outcome (S X : Type) :=
  | StepReturned (x : X) (s : S) (logged : list log_call)
  | StepRaised (e : step_exn) (s : S) (logged : list log_call).

Definition L (S X : Type) : Type := S → list log_call → step_outcome S X.

Definition lret {S X : Type} (x : X) : L S X :=
  λ s logged, StepReturned S X x s logged.

Definition lbind {S X Y : Type} (m : L S X) (k : X → L S Y) : L S Y :=
  λ s logged,
    match m s logged with
    | StepReturned _ _ x s' logged' => k x s' logged'
    | StepRaised _ _ e s' logged' => StepRaised S Y e s' logged'
    end.

(** A call of a method of [self]. *)
Definition call {S X : Type} (m : M S X) : L S X :=
  λ s logged,
    match m s with
    | Returned x s' => StepReturned S X x s' logged
    | Raised e s' => StepRaised S X (Propagated e) s' logged
    end.

(** [d[key]] *)
Definition subscript {S : Type} (d : gmap string scalar) (key : string)
  : L S scalar :=
  λ s logged,
    match d !! key with
    | Some v => StepReturned S scalar v s logged
    | None => StepRaised S scalar (KeyError key) s logged
    end.

(** [self.log(name, value, on_epoch=.., on_step=.., prog_bar=..)] *)
Definition log {S : Type} (name : string) (value : scalar)
    (on_epoch on_step prog_bar : bool) : L S unit :=
  λ s logged,
    StepReturned S unit tt s
      (logged ++ [LogCall name value on_epoch on_step prog_bar]).

(** The state of [self] and the record of [self.log] a step ends with. *)
Definition step_state {S X : Type} (o : step_outcome S X) : S :=
  match o with
  | StepReturned _ _ _ s _ => s
  | StepRaised _ _ _ s _ => s
  end.

Definition step_logged {S X : Type} (o : step_outcome S X)
  : list log_call :=
  match o with
  | StepReturned _ _ _ _ logged => logged
  | StepRaised _ _ _ _ logged => logged
  end.

(** The metrics a record of [self.log] calls holds per epoch. *)
Definition epoch_metrics (calls : list log_call) : list string :=
  log_name <$> filter (λ c, on_epoch c = true) calls.

End lightning.

Arguments StepReturned {B S X} _ _ _.
Arguments StepRaised {B S X} _ _ _.

Declare Scope step_scope.
Delimit Scope step_scope with step.
Notation "'let*' x ':=' m 'in' k" := (lbind m (λ x, k))
  (at level 10, x name, m at level 100, k at level 200) : step_scope.

End Lightning.

Module SLIP_MOCOV2_steps.
Import Lightning SLIP_MOCOV2.
Section steps.
Context `{B : Backend}.
Local Open Scope step_scope.

(** [training_step], lines 117-123. *)
Definition training_step (rnd : Rand * Rand)
    (batch : list Img * list Img * TextEnc) (batch_idx : Z)
  : L state scalar :=
  let* shared_out := call (shared_forward rnd batch batch_idx "train") in
  let* loss := subscript shared_out "loss" in
  let* clip_loss := subscript shared_out "clip_loss" in
  let* ssl_loss := subscript shared_out "ssl_loss" in
  let* _ := log "train_loss" loss false true true in
  let* _ := log "train_clip_loss" clip_loss false true true in
  let* _ := log "train_ssl_loss" ssl_loss false true true in
  lret loss.

(** [validation_step], lines 126-131; it has no [return]: the result is
    [None]. *)
Definition validation_step (rnd : Rand * Rand)
    (batch : list Img * list Img * TextEnc) (batch_idx : Z)
  : L state unit :=
  let* shared_out := call (shared_forward rnd batch batch_idx "val") in
  let* loss := subscript shared_out "loss" in
  let* clip_loss := subscript shared_out "clip_loss" in
  let* ssl_loss := subscript shared_out "ssl_loss" in
  let* _ := log "val_loss" loss true false true in
  let* _ := log "val_clip_loss" clip_loss false true true in
  let* _ := log "val_ssl_loss" ssl_loss false true true in
  lret tt.

End steps.
End SLIP_MOCOV2_steps.

Module SLIP_SIMCLR_steps.
Import Lightning SLIP_SIMCLR.
Section steps.
Context `{B : Backend}.
Local Open Scope step_scope.

(** [training_step], lines 64-70. *)
Definition training_step
    (batch : list Img * list Img * list Img * TextEnc) (batch_idx : Z)
  : L state scalar :=
  let* shared_out := call (shared_forward batch batch_idx "train") in
  let* loss := subscript shared_out "loss" in
  let* clip_loss := subscript shared_out "clip_loss" in
  let* ssl_loss := subscript shared_out "ssl_loss" in
  let* _ := log "train_loss" loss false true true in
  let* _ := log "train_clip_loss" clip_loss false true true in
  let* _ := log "train_ssl_loss" ssl_loss false true true in
  lret loss.

(** [validation_step], lines 73-78. *)
Definition validation_step
    (batch : list Img * list Img * list Img * TextEnc) (batch_idx : Z)
  : L state unit :=
  let* shared_out := call (shared_forward batch batch_idx "val") in
  let* loss := subscript shared_out "loss" in
  let* clip_loss := subscript shared_out "clip_loss" in
  let* ssl_loss := subscript shared_out "ssl_loss" in
  let* _ := log "val_loss" loss true false true in
  let* _ := log "val_clip_loss" clip_loss false true true in
  let* _ := log "val_ssl_loss" ssl_loss false true true in
  lret tt.

End steps.
End SLIP_SIMCLR_steps.

Module VICREG_steps.
Import Lightning VICREG.
Section steps.
Context `{B : Backend}.
Local Open Scope step_scope.

(** [training_step], lines 45-49. *)
Definition training_step (batch : list Img * list Img) (batch_idx : Z)
  : L state scalar :=
  let* shared_out := call (shared_forward batch batch_idx "train") in
  let* loss := subscript shared_out "loss" in
  let* _ := log "train_loss" loss false true true in
  lret loss.

(** [validation_step], lines 52-55. *)
Definition validation_step (batch : list Img * list Img) (batch_idx : Z)
  : L state unit :=
  let* shared_out := call (shared_forward batch batch_idx "val") in
  let* loss := subscript shared_out "loss" in
  let* _ := log "val_loss" loss true false true in
  lret tt.

End steps.
End VICREG_steps.

(** ** The collate function ([collate_fn_batch_encoding])

    A batch is the list of samples the loader drew, each a triple of two
    image views and a report.  The tokenizer is a collaborator: a
    function of the reports and of [max_length]. *)

Module Collate.
Section collate.
Context `{B : Backend} {Text : Type}.
Variable batch_encode_plus : list Text → Z → TextEnc.

Inductive collate_exn : Set := ValueError.

(** [zip] over the unpacked batch: one tuple per position of the
    samples; no tuple at all for a batch without samples. *)
Definition zip_star (batch : list (Img * Img * Text))
  : option (list Img * list Img * list Text) :=
  match batch with
  | [] => None
  | _ => Some (batch.*1.*1, batch.*1.*2, batch.*2)
  end.

(** [collate_fn_batch_encoding], lines 143-152.  The unpacking into
    three names raises [ValueError] when [zip] yields nothing. *)
Definition collate_fn_batch_encoding (max_length : Z)
    (batch : list (Img * Img * Text))
  : collate_exn + (list Img * list Img * TextEnc) :=
  match zip_star batch with
  | None => inl ValueError
  | Some (images1, images2, texts) =>
      let text_encodings := batch_encode_plus texts max_length in
      inr (images1, images2, text_encodings)
  end.

End collate.
End Collate.

(** ** Command-line options ([argparse])

    A parser is the list of the options declared so far, oldest first.
    [add_argument] raises [ArgumentError] when the option string is
    already declared (the parsers here keep the default conflict handler);
    an argument group registers its options with the parser it belongs
    to.  The help option a new parser declares by itself is left out. *)

Module Argparse.

Inductive arg_type : Set := int | float | str.

(** [action=]: the default [store], or [store_true]. *)
Inductive action : Set := store | store_true.

Inductive value : Set :=
  | VNone
  | VBool (b : bool)
  | VInt (z : Z)
  | VFloat (q : Q)
  | VStr (s : string).

Arguments VInt z%_Z.
Arguments VFloat q%_Q.

(** One call [add_argument(option_string, type=.., action=..,
    default=.., choices=..)]; [None] stands for a keyword that is not
    given. *)
Record argument : Type := Argument {
  option_string : string;
  type : option arg_type;
  arg_action : action;
  default : value;
  choices : option (gset string)
}.

Definition parser : Type := list argument.

Inductive result (X : Type) : Type :=
  | Ok (x : X)
  | ArgumentError (conflicting : string).

Arguments Ok {X} _.
Arguments ArgumentError {X} _.

(** [r >>> f]: the next call on the parser, unless an earlier one
    raised. *)
Definition and_then {X Y : Type} (r : result X) (f : X → result Y)
  : result Y :=
  match r with
  | Ok x => f x
  | ArgumentError o => ArgumentError o
  end.

Infix ">>>" := and_then (at level 50, left associativity).

Definition option_strings (p : parser) : list string :=
  option_string <$> p.

Definition add_argument (option_string : string) (type : option arg_type)
    (action : action) (default : value) (choices : option (gset string))
    (p : parser) : result parser :=
  if decide (option_string ∈ option_strings p)
  then ArgumentError option_string
  else Ok (p ++ [Argument option_string type action default choices]).

(** The calls of [add_argument] for the options [l], in order. *)
Definition add_arguments (l : list argument) (p : parser) : result parser :=
  foldl (λ r a,
           r >>> add_argument (option_string a) (type a) (arg_action a)
                              (default a) (choices a))
        (Ok p) l.

(** [add_argument_group(title)]: the group adds to its parser. *)
Definition add_argument_group (title : string) (p : parser) : parser := p.

(** The attribute name of an option: the option string without its
    two dashes. *)
Definition dest (a : argument) : string :=
  String.substring 2 (String.length (option_string a) - 2)
                   (option_string a).

Definition dests (p : parser) : list string := dest <$> p.

(** What the option holds when the command line does not give it: the
    default as written ([argparse] converts only string defaults), and
    [False] for a [store_true] option without one. *)
Definition default_value (a : argument) : value :=
  match arg_action a, default a with
  | store_true, VNone => VBool false
  | _, d => d
  end.

(** [parser.get_default(name)] *)
Definition get_default (p : parser) (name : string) : option value :=
  ia ← list_find (λ a, dest a = name) p; Some (default_value ia.2).

(** A value of the type an option converts its command-line strings
    to; a [store_true] option holds a boolean. *)
Definition has_type (a : argument) (v : value) : bool :=
  match arg_action a, type a, v with
  | store_true, _, VBool _ => true
  | store, Some int, VInt _ => true
  | store, Some float, VFloat _ => true
  | store, Some str, VStr _ => true
  | store, None, VStr _ => true
  | _, _, _ => false
  end.

End Argparse.

Module SLIP_MOCOV2_args.
Import Argparse.

(** [add_model_specific_args], lines 167-188. *)
Definition add_model_specific_args (parent_parser : parser)
  : result parser :=
  let parser := add_argument_group "slip_mocov2" parent_parser in
  Ok parser
  >>> add_argument "--img_embedding_dim" (Some int) store (VInt 2048) None
  >>> add_argument "--text_embedding_dim" (Some int) store (VInt 768) None
  >>> add_argument "--projection_dim" (Some int) store (VInt 512) None
  >>> add_argument "--dropout" (Some int) store (VFloat (1 # 10)) None
  >>> add_argument "--temperature_clip" (Some float) store (VFloat (1 # 10))
        None
  >>> add_argument "--temperature_mocov2" (Some float) store
        (VFloat (7 # 100)) None
  >>> add_argument "--ema_decay" (Some float) store (VFloat (999 # 1000)) None
  >>> add_argument "--queue_size" (Some int) store (VInt 65536) None
  >>> add_argument "--mocov2_proj_output_dim" (Some int) store (VInt 2048)
        None
  >>> add_argument "--mocov2_proj_hidden_dim" (Some int) store (VInt 2048)
        None
  >>> add_argument "--ssl_scale" (Some float) store (VFloat 1) None.

(** The attributes of [self.hparams] that [slip_mocov2.py] reads, in the
    order of their first use. *)
Definition hparams_read : list string :=
  [ "img_backbone"; "dropout"; "text_backbone"; "pool";
    "img_embedding_dim"; "projection_dim"; "text_embedding_dim";
    "mocov2_proj_hidden_dim"; "mocov2_proj_output_dim"; "queue_size";
    "temperature_clip"; "ema_decay"; "temperature_mocov2"; "ssl_scale";
    "max_length"; "batch_size"; "num_workers"; "pin_mem" ].

End SLIP_MOCOV2_args.

Module SLIP_SIMCLR_args.
Import Argparse.

(** [add_model_specific_args], lines 92-108. *)
Definition add_model_specific_args (parent_parser : parser)
  : result parser :=
  let parser := add_argument_group "slip_simclr" parent_parser in
  Ok parser
  >>> add_argument "--img_embedding_dim" (Some int) store (VInt 2048) None
  >>> add_argument "--text_embedding_dim" (Some int) store (VInt 768) None
  >>> add_argument "--projection_dim" (Some int) store (VInt 512) None
  >>> add_argument "--dropout" (Some int) store (VFloat (1 # 10)) None
  >>> add_argument "--temperature" (Some float) store (VFloat (1 # 10)) None
  >>> add_argument "--simclr_proj_hidden_dim" (Some int) store (VInt 512) None
  >>> add_argument "--simclr_proj_output_dim" (Some int) store (VInt 128) None
  >>> add_argument "--ssl_scale" (Some float) store (VFloat 1) None.

(** The attributes of [self.hparams] that [slip_simclr.py] reads. *)
Definition hparams_read : list string :=
  [ "img_backbone"; "text_backbone"; "projection_dim"; "dropout"; "pool";
    "img_embedding_dim"; "text_embedding_dim"; "batch_size";
    "temperature"; "gpus"; "num_nodes"; "simclr_proj_hidden_dim";
    "simclr_proj_output_dim"; "ssl_scale" ].

End SLIP_SIMCLR_args.

Module VICREG_args.
Import Argparse.

(** [add_model_specific_args], lines 66-82. *)
Definition add_model_specific_args (parent_parser : parser)
  : result parser :=
  let parser := add_argument_group "vicreg" parent_parser in
  Ok parser
  >>> add_argument "--img_embedding_dim" (Some int) store (VInt 2048) None
  >>> add_argument "--dropout" (Some int) store (VFloat (1 # 10)) None
  >>> add_argument "--temperature" (Some float) store (VFloat 1) None
  >>> add_argument "--invariance_lamb" (Some float) store (VFloat 25) None
  >>> add_argument "--variance_mu" (Some float) store (VFloat 25) None
  >>> add_argument "--covariance_v" (Some float) store (VFloat 1) None
  >>> add_argument "--vicreg_proj_output_dim" (Some int) store (VInt 8192)
        None
  >>> add_argument "--vicreg_proj_hidden_dim" (Some int) store (VInt 8192)
        None
  >>> add_argument "--ssl_scale" (Some float) store (VFloat 1) None.

(** The attributes of [self.hparams] that [vicreg.py] reads. *)
Definition hparams_read : list string :=
  [ "img_backbone"; "text_backbone"; "dropout"; "img_embedding_dim";
    "vicreg_proj_hidden_dim"; "vicreg_proj_output_dim";
    "invariance_lamb"; "variance_mu"; "covariance_v" ].

End VICREG_args.

(** ** [main_pretrain.py] *)

Module Main.
Import Argparse.

Definition IMG_BACKBONES : gset string :=
  {[ "resnet2d_18"; "resnet2d_50"; "resnet2d_101"; "densenet2d_121" ]}.

Definition TEXT_BACKBONES : gset string :=
  {[ "microsoft/BiomedVLP-CXR-BERT-general";
     "microsoft/BiomedVLP-CXR-BERT-specialized" ]}.

(** The methods of [METHODS] whose files are modelled here, with the
    [add_model_specific_args] and the hyper-parameters read of each. *)
Inductive method : Set := slip_mocov2 | slip_simclr | vicreg.

Definition METHODS (m : method) : parser → result parser :=
  match m with
  | slip_mocov2 => SLIP_MOCOV2_args.add_model_specific_args
  | slip_simclr => SLIP_SIMCLR_args.add_model_specific_args
  | vicreg => VICREG_args.add_model_specific_args
  end.

Definition hparams_read (m : method) : list string :=
  match m with
  | slip_mocov2 => SLIP_MOCOV2_args.hparams_read
  | slip_simclr => SLIP_SIMCLR_args.hparams_read
  | vicreg => VICREG_args.hparams_read
  end.

(** The options a method declares: what its [add_model_specific_args]
    adds to a parser without options. *)
Definition declared (m : method) : list argument :=
  match METHODS m [] with
  | Ok p => p
  | ArgumentError _ => []
  end.

(** [parse_args_pretrain], lines 26-103, up to the parser on which line
    102 calls [parse_args]; [m] is the method the first pass over the
    command line found (line 43). *)
Definition parse_args_pretrain (m : method) : result parser :=
  Ok []
  (* method args *)
  >>> add_argument "--method" (Some str) store VNone None
  (* model specific args *)
  >>> METHODS m
  >>> add_argument "--seed" (Some int) store (VInt 2022) None
  >>> add_argument "--num_workers" (Some int) store (VInt 0) None
  >>> add_argument "--gpus" (Some int) store (VInt 1) None
  >>> add_argument "--num_nodes" (Some int) store (VInt 1) None
  >>> add_argument "--precision" (Some int) store (VInt 16) None
  >>> add_argument "--save_dir" (Some str) store (VStr "./") None
  >>> add_argument "--val_interval" (Some float) store (VFloat 1) None
  >>> add_argument "--use_ddp" None store_true VNone None
  >>> add_argument "--pin_mem" None store_true (VBool false) None
  >>> add_argument "--batch_size" (Some int) store (VInt 16) None
  >>> add_argument "--max_epochs" (Some int) store (VInt 100) None
  >>> add_argument "--features_dim" (Some int) store (VInt 2048) None
  >>> add_argument "--clip_grad" (Some float) store (VFloat 0) None
  >>> add_argument "--pretrained" None store_true (VBool false) None
  >>> add_argument "--img_backbone" (Some str) store (VStr "resnet2d_18")
        (Some IMG_BACKBONES)
  >>> add_argument "--two_transform" None store_true (VBool false) None
  >>> add_argument "--text_backbone" (Some str) store
        (VStr "microsoft/BiomedVLP-CXR-BERT-general") (Some TEXT_BACKBONES)
  >>> add_argument "--max_length" (Some int) store (VInt 128) None
  >>> add_argument "--pool" (Some str) store (VStr "cls") None
  >>> add_argument "--full_report" None store_true (VBool false) None
  >>> add_argument "--lr_backbone" (Some float) store (VFloat (1 # 10000))
        None
  >>> add_argument "--lr_projector" (Some float) store (VFloat (1 # 10000))
        None
  >>> add_argument "--min_lr_backbone" (Some float) store
        (VFloat (1 # 100000)) None
  >>> add_argument "--min_lr_projector" (Some float) store
        (VFloat (1 # 100000)) None
  >>> add_argument "--weight_decay" (Some float) store (VFloat (1 # 10000))
        None
  >>> add_argument "--weight_decay_end" (Some float) store
        (VFloat (1 # 100000)) None
  >>> add_argument "--start_momentum" (Some float) store (VFloat (99 # 100))
        None
  >>> add_argument "--end_momentum" (Some float) store (VFloat 1) None
  >>> add_argument "--momentum" (Some float) store (VFloat (9 # 10)) None
  >>> add_argument "--per_warmup_steps" (Some float) store (VFloat (3 # 100))
        None
  >>> add_argument "--optimizer" (Some str) store (VStr "adamw")
        (Some (list_to_set ["adamw"; "lamb"; "sgd"; "lars"]))
  >>> add_argument "--train_df_path" (Some str) store
        (VStr "/gpfs/data/denizlab/Users/hh2740/mimic-cxr_half_train.csv")
        None
  >>> add_argument "--val_df_path" (Some str) store
        (VStr "/gpfs/data/denizlab/Users/hh2740/mimic-cxr_half_val.csv") None.

(** The two callbacks [main] builds that watch a logged metric, lines
    115-125: [ModelCheckpoint(monitor='val_loss', mode='min', ...)] and
    [EarlyStopping(monitor="val_loss", ..., mode="min")]. *)
Record monitor : Set := Monitor {
  callback : string;
  monitored : string;
  monitor_mode : string
}.

Definition monitors : list monitor :=
  [ Monitor "ModelCheckpoint" "val_loss" "min";
    Monitor "EarlyStopping" "val_loss" "min" ].

End Main.

(** ** A model with the default queue size *)

Module DefaultScenario.
Import SLIP_MOCOV2.

(** A queue of one row per stream and 65536 columns, at pointer 0. *)
Definition q_default_queue : tensor3 Q :=
  T3 2 1 (Z.to_nat 65536)
     [[replicate (Z.to_nat 65536) 0%Q]; [replicate (Z.to_nat 65536) 0%Q]].

Definition q_default_state : @state QBackend.backend :=
  @State QBackend.backend
    (@Hparams QBackend.backend 1 65536 (1 # 10)%Q (7 # 100)%Q
              (999 # 1000)%Q 1%Q)
    1%Q 1%Q 1%Q 1%Q 1%Q 1%Q 1%Q 0 0%Z [q_default_queue] [].

(** Keys of 16 and of 24 rows. *)
Definition q_keys16 : tensor3 Q :=
  T3 2 16 1 [replicate 16 [1%Q]; replicate 16 [1%Q]].

Definition q_keys24 : tensor3 Q :=
  T3 2 24 1 [replicate 24 [1%Q]; replicate 24 [1%Q]].

End DefaultScenario.

(** Shapes of concrete tensors, by evaluation. *)
Ltac solve_wf3 := split; [reflexivity | vm_compute; repeat constructor].

(** * Properties *)

(** ** Facts on tensors *)

Module TensorFacts.
Section facts.
Context {A : Type}.
Implicit Types (m : list (list A)) (t : tensor3 A).

Lemma transpose_length {X : Type} (n : nat) (m : list (list X)) :
  Forall (λ r, length r = n) m → length (transpose n m) = n.
Proof.
  induction 1 as [|r m Hr _ IH]; simpl.
  - apply length_replicate.
  - rewrite length_zip_with. lia.
Qed.

(** Row [j] of the transpose is column [j] of the matrix. *)
Lemma transpose_lookup {X : Type} (n : nat) (m : list (list X)) (j : nat) :
  Forall (λ r, length r = n) m → j < n →
  ∃ col, transpose n m !! j = Some col ∧ length col = length m ∧
         ∀ i, col !! i = (r ← m !! i; (r : list X) !! j).
Proof.
  intros Hm Hj. induction Hm as [|r m Hr Hm IH]; simpl.
  - exists []. rewrite lookup_replicate_2 by done. by split_and!.
  - destruct IH as (col & Hcol & Hlen & Hget).
    destruct (lookup_lt_is_Some_2 r j) as [x Hx]; [lia|].
    exists (x :: col). rewrite lookup_zip_with, Hx, Hcol. simpl.
    split_and!; [done|by rewrite Hlen|].
    intros [|i]; simpl; [by rewrite Hx|apply Hget].
Qed.

Lemma transpose_wf {X : Type} (n : nat) (m : list (list X)) :
  Forall (λ r, length r = n) m →
  Forall (λ c, length c = length m) (transpose n m).
Proof.
  intros Hm. apply Forall_lookup. intros j col Hcol.
  assert (j < n) as Hj.
  { rewrite <- (transpose_length n m Hm). by eapply lookup_lt_Some. }
  destruct (transpose_lookup n m j Hm Hj) as (col' & Hcol' & Hlen & _).
  congruence.
Qed.

Lemma transpose_Forall {X : Type} (P : X → Prop) (n : nat)
    (m : list (list X)) :
  Forall (λ r, length r = n) m → Forall (Forall P) m →
  Forall (Forall P) (transpose n m).
Proof.
  intros Hm HP. apply Forall_lookup. intros j col Hcol.
  assert (j < n) as Hj.
  { rewrite <- (transpose_length n m Hm). by eapply lookup_lt_Some. }
  destruct (transpose_lookup n m j Hm Hj) as (col' & Hcol' & _ & Hget).
  assert (col' = col) as -> by congruence.
  apply Forall_lookup. intros i x Hx. rewrite Hget in Hx.
  destruct (m !! i) as [r|] eqn:Hr; simpl in Hx; [|done].
  eapply Forall_lookup_1; [|exact Hx]. by eapply Forall_lookup_1.
Qed.

Lemma permute021_wf t : wf3 t → wf3 (permute021 t).
Proof.
  intros [Hlen Hall]. split; simpl.
  - by rewrite length_map.
  - apply Forall_fmap. eapply Forall_impl; [exact Hall|].
    intros m [Hm Hrows]; simpl. split.
    + by apply transpose_length.
    + rewrite <- Hm. by apply transpose_wf.
Qed.

Lemma get3_permute021 t s d c :
  wf3 t → get3 (permute021 t) s d c = get3 t s c d.
Proof.
  intros [Hlen Hall]. unfold get3, permute021; simpl.
  rewrite list_lookup_fmap.
  destruct (cells3 t !! s) as [m|] eqn:Hm; simpl; [|done].
  pose proof (Forall_lookup_1 _ _ _ _ Hall Hm) as [_ Hrows].
  destruct (decide (d < dim2 t)) as [Hd|Hd].
  - destruct (transpose_lookup (dim2 t) m d Hrows Hd)
      as (col & -> & _ & Hget).
    simpl. apply Hget.
  - assert (transpose (dim2 t) m !! d = None) as ->.
    { apply lookup_ge_None. rewrite transpose_length by done. lia. }
    simpl.
    destruct (m !! c) as [r|] eqn:Hr; simpl; [|done].
    symmetry. apply lookup_ge_None.
    rewrite (Forall_lookup_1 _ _ _ _ Hrows Hr). lia.
Qed.

(** What [normalize(t, dim=0)] normalises: for every [d] and [c], the
    vector [t[:, d, c]] across the first dimension. *)
Lemma normalize3_dim0_fibre (nv : list A → list A) t (d c : nat) :
  wf3 t → (∀ v, length (nv v) = length v) →
  d < dim1 t → c < dim2 t →
  ∃ v, fibre0 t d c = Some v ∧ length v = dim0 t ∧
       fibre0 (normalize3_dim0 nv t) d c = Some (nv v).
Proof.
  intros [HX Hall] Hnv Hd Hc.
  assert (Forall (λ m : list (list A), length m = dim1 t) (cells3 t)) as Hrows.
  { eapply Forall_impl; [exact Hall|]. by intros m [? _]. }
  assert (Forall (Forall (λ r : list A, length r = dim2 t)) (cells3 t))
    as Hcols.
  { eapply Forall_impl; [exact Hall|]. by intros m [_ ?]. }
  set (T1 := transpose (dim1 t) (cells3 t)).
  assert (Forall (λ col : list (list A), length col = dim0 t) T1) as HT1len.
  { rewrite <- HX. by apply transpose_wf. }
  assert (Forall (Forall (λ r : list A, length r = dim2 t)) T1) as HT1el
    by by apply transpose_Forall.
  destruct (transpose_lookup (dim1 t) (cells3 t) d Hrows Hd)
    as (col1 & Hcol1 & Hlen1 & Hget1). fold T1 in Hcol1.
  pose proof (Forall_lookup_1 _ _ _ _ HT1el Hcol1) as Hcol1el.
  destruct (transpose_lookup (dim2 t) col1 c Hcol1el Hc)
    as (v & Hv & Hlenv & Hgetv).
  assert (length v = dim0 t) as Hlenv' by congruence.
  exists v. split_and!; [|done|].
  - apply mapM_Some_2, Forall2_same_length_lookup_2; [congruence|].
    intros s m y Hm Hy. rewrite Hgetv, Hget1, Hm in Hy. exact Hy.
  - unfold normalize3_dim0; simpl. fold T1.
    set (G := map (transpose (dim0 t)) _).
    assert (G !! d = Some (transpose (dim0 t)
                             (map nv (transpose (dim2 t) col1)))) as HGd.
    { unfold G. change (map ?f ?k) with (f <$> k).
      by rewrite !list_lookup_fmap, Hcol1. }
    assert (Forall (λ r : list A, length r = dim0 t)
                   (map nv (transpose (dim2 t) col1))) as HNd.
    { apply Forall_fmap. eapply Forall_impl.
      - apply transpose_wf. exact Hcol1el.
      - intros r Hr; simpl. rewrite Hnv. congruence. }
    assert (Forall (λ g : list (list A), length g = dim0 t) G) as HG.
    { unfold G. apply Forall_fmap, Forall_fmap, Forall_fmap.
      apply Forall_lookup. intros i col Hcol. simpl.
      apply transpose_length. apply Forall_fmap.
      pose proof (Forall_lookup_1 _ _ _ _ HT1el Hcol) as Hel.
      pose proof (Forall_lookup_1 _ _ _ _ HT1len Hcol) as Hlen.
      eapply Forall_impl; [by apply transpose_wf|].
      intros r Hr; simpl. rewrite Hnv. congruence. }
    unfold fibre0. cbn [cells3].
    apply mapM_Some_2, Forall2_same_length_lookup_2.
    { rewrite transpose_length by done. by rewrite Hnv. }
    intros s h y Hh Hy.
    assert (s < dim0 t) as Hs.
    { rewrite <- Hlenv', <- (Hnv v). by eapply lookup_lt_Some. }
    destruct (transpose_lookup (dim0 t) G s HG Hs) as (h' & Hh' & _ & Hgeth).
    assert (h' = h) as -> by congruence.
    rewrite Hgeth, HGd. simpl.
    destruct (transpose_lookup (dim0 t) _ s HNd Hs) as (g & -> & _ & Hgetg).
    simpl. rewrite Hgetg.
    change (map ?f ?k) with (f <$> k).
    rewrite list_lookup_fmap, Hv. simpl. exact Hy.
Qed.

Lemma expand_to_same {X : Type} (n : nat) (l : list X) :
  length l = n → expand_to n l = l.
Proof. intros H. unfold expand_to. by rewrite decide_True. Qed.

Lemma slice_index_in (n : nat) (p : nat) :
  p ≤ n → slice_index n (Z.of_nat p) = p.
Proof.
  intros H. unfold slice_index.
  destruct (Z.ltb_spec (Z.of_nat p) 0); lia.
Qed.

(** One row after the write of [new] at [start]. *)
Lemma lookup_spliced (r new : list A) (start c : nat) :
  start + length new ≤ length r →
  (take start r ++ new ++ drop (start + length new) r) !! c =
    if decide (start ≤ c < start + length new)
    then new !! (c - start) else r !! c.
Proof.
  intros Hfit.
  assert (length (take start r) = start) as Htake
    by (rewrite length_take; lia).
  case_decide as Hc.
  - rewrite lookup_app_r by lia. rewrite Htake.
    rewrite lookup_app_l by lia. done.
  - destruct (decide (c < start)).
    + rewrite lookup_app_l by lia. by rewrite lookup_take_lt.
    + rewrite lookup_app_r by lia. rewrite Htake.
      rewrite lookup_app_r by lia. rewrite lookup_drop. f_equal. lia.
Qed.

Lemma length_spliced (r new : list A) (start : nat) :
  start + length new ≤ length r →
  length (take start r ++ new ++ drop (start + length new) r) = length r.
Proof.
  intros H. rewrite !length_app, length_take, length_drop. lia.
Qed.

Lemma broadcastable_refl (n : nat) : broadcastable n n = true.
Proof. unfold broadcastable. by rewrite bool_decide_eq_true_2. Qed.

Lemma expand_cells_same (src : tensor3 A) :
  wf3 src →
  expand_to (dim0 src)
    (map (λ m, expand_to (dim1 src) (map (expand_to (dim2 src)) m))
         (cells3 src)) = cells3 src.
Proof.
  intros [Hlen Hall].
  assert (map (λ m, expand_to (dim1 src) (map (expand_to (dim2 src)) m))
              (cells3 src) = cells3 src) as ->.
  { rewrite <- (map_id (cells3 src)) at 2.
    apply map_ext_Forall. eapply Forall_impl; [exact Hall|].
    intros m [Hm Hrows]; simpl.
    assert (map (expand_to (dim2 src)) m = m) as ->.
    { rewrite <- (map_id m) at 2. apply map_ext_Forall.
      eapply Forall_impl; [exact Hrows|].
      intros r Hr; simpl. by apply expand_to_same. }
    by apply expand_to_same. }
  by apply expand_to_same.
Qed.

(** The write [dst[:, :, p:p+n] = src] of a source of exactly the shape
    of the slice, the slice lying inside [dst]. *)
Lemma setitem_last_exact (dst src : tensor3 A) (p : nat) :
  wf3 dst → wf3 src →
  dim0 src = dim0 dst → dim1 src = dim1 dst →
  p + dim2 src ≤ dim2 dst →
  ∃ dst',
    setitem_last dst (Z.of_nat p) (Z.of_nat p + Z.of_nat (dim2 src)) src
      = Some dst' ∧
    wf3 dst' ∧ shape3 dst' = shape3 dst ∧
    ∀ s d c, get3 dst' s d c =
             if decide (p ≤ c < p + dim2 src)
             then get3 src s d (c - p) else get3 dst s d c.
Proof.
  intros Hdst Hsrc H0 H1 Hfit. unfold setitem_last.
  rewrite <- Nat2Z.inj_add, !slice_index_in by lia.
  replace (p + dim2 src - p) with (dim2 src) by lia.
  rewrite <- H0, <- H1, !broadcastable_refl. simpl.
  rewrite expand_cells_same by done.
  eexists; split; [done|].
  destruct Hdst as [Hdlen Hdall], Hsrc as [Hslen Hsall].
  assert (∀ s m m', cells3 dst !! s = Some m → cells3 src !! s = Some m' →
            ∀ d r r', m !! d = Some r → m' !! d = Some r' →
              length r = dim2 dst ∧ length r' = dim2 src) as Hrow.
  { intros s m m' Hm Hm' d r r' Hr Hr'.
    pose proof (Forall_lookup_1 _ _ _ _ Hdall Hm) as [_ Hr1].
    pose proof (Forall_lookup_1 _ _ _ _ Hsall Hm') as [_ Hr2].
    split; [exact (Forall_lookup_1 _ _ _ _ Hr1 Hr)
           |exact (Forall_lookup_1 _ _ _ _ Hr2 Hr')]. }
  split_and!.
  - split; simpl.
    + rewrite length_zip_with. lia.
    + apply Forall_lookup. intros s m2 Hm2.
      apply lookup_zip_with_Some in Hm2 as (m & m' & -> & Hm & Hm').
      pose proof (Forall_lookup_1 _ _ _ _ Hdall Hm) as [Hml _].
      pose proof (Forall_lookup_1 _ _ _ _ Hsall Hm') as [Hml' _].
      split.
      * rewrite length_zip_with. lia.
      * apply Forall_lookup. intros d r2 Hr2.
        apply lookup_zip_with_Some in Hr2 as (r & r' & -> & Hr & Hr').
        destruct (Hrow _ _ _ Hm Hm' _ _ _ Hr Hr') as [Hl Hl'].
        rewrite <- Hl'. rewrite length_spliced; [done|lia].
  - unfold shape3; simpl. congruence.
  - intros s d c. unfold get3; simpl.
    rewrite lookup_zip_with.
    destruct (cells3 dst !! s) as [m|] eqn:Hm; simpl.
    2:{ assert (cells3 src !! s = None) as ->.
        { apply lookup_ge_None. apply lookup_ge_None in Hm. lia. }
        by case_decide. }
    destruct (cells3 src !! s) as [m'|] eqn:Hm'; simpl.
    2:{ apply lookup_ge_None in Hm'. apply lookup_lt_Some in Hm. lia. }
    pose proof (Forall_lookup_1 _ _ _ _ Hdall Hm) as [Hml _].
    pose proof (Forall_lookup_1 _ _ _ _ Hsall Hm') as [Hml' _].
    rewrite lookup_zip_with.
    destruct (m !! d) as [r|] eqn:Hr; simpl.
    2:{ assert (m' !! d = None) as ->.
        { apply lookup_ge_None. apply lookup_ge_None in Hr. lia. }
        by case_decide. }
    destruct (m' !! d) as [r'|] eqn:Hr'; simpl.
    2:{ apply lookup_ge_None in Hr'. apply lookup_lt_Some in Hr. lia. }
    destruct (Hrow _ _ _ Hm Hm' _ _ _ Hr Hr') as [Hl Hl'].
    rewrite <- Hl'. rewrite lookup_spliced by lia. done.
Qed.

End facts.
End TensorFacts.

(** ** The feature queue *)

Module QueueFacts.
Import SLIP_MOCOV2 TensorFacts.
Section facts.
Context `{B : Backend}.
Implicit Types (s : state) (keys Q : tensor3 scalar).

(** The enqueue at a pointer [p] with [p + b] inside the queue. *)
Lemma enqueue_inside s keys Q (D C b p : nat) :
  queue_contents s = Some Q → wf3 Q → shape3 Q = (2, D, C) →
  queue_size (hparams s) = Z.of_nat C →
  wf3 keys → shape3 keys = (2, b, D) →
  (Z.of_nat b | Z.of_nat C)%Z → 0 < C →
  queue_ptr s = Z.of_nat p → p + b ≤ C →
  ∃ Q',
    _dequeue_and_enqueue keys s =
      Returned tt (set_queue_ptr (Z.of_nat ((p + b) mod C))
                     (set_heap (<[queue s := Q']> (heap s)) s)) ∧
    wf3 Q' ∧ shape3 Q' = (2, D, C) ∧
    ∀ st d c, get3 Q' st d c =
              if decide (p ≤ c < p + b)
              then get3 keys st (c - p) d else get3 Q st d c.
Proof.
  intros HQ HwfQ HshQ Hsize Hwfk Hshk Hdiv HC Hptr Hfit.
  injection HshQ as HQ0 HQ1 HQ2. injection Hshk as Hk0 Hk1 Hk2.
  assert (b ≠ 0) as Hb.
  { intros ->. destruct Hdiv as [k Hk]. rewrite Z.mul_0_r in Hk. lia. }
  destruct (setitem_last_exact Q (permute021 keys) p)
    as (Q' & Hset & HwfQ' & HshQ' & Hget); simpl;
    [done|by apply permute021_wf|congruence|congruence|lia|].
  simpl in Hset. rewrite Hk1 in Hset.
  exists Q'. split_and!; [|done|by rewrite HshQ', <- HQ0, <- HQ1, <- HQ2|].
  - unfold _dequeue_and_enqueue, bind, get_self, py_mod, py_assert.
    rewrite Hk1, Hsize, Hptr.
    rewrite decide_False by lia.
    assert (Z.of_nat C mod Z.of_nat b = 0)%Z as ->
      by (apply Z.mod_divide; [lia|done]).
    simpl.
    unfold setitem_queue. rewrite HQ, Hset.
    rewrite decide_False by lia. unfold ret, modify.
    rewrite <- Nat2Z.inj_add, <- Nat2Z.inj_mod. done.
  - intros st d c. rewrite Hget; simpl. rewrite Hk1.
    case_decide; [|done]. by apply get3_permute021.
Qed.

Lemma div_row (b j i : nat) : i < b → (j * b + i) / b = j.
Proof.
  intros Hi. rewrite Nat.add_comm, Nat.div_add by lia.
  by rewrite Nat.div_small.
Qed.

Lemma mod_row (b j i : nat) : i < b → (j * b + i) mod b = i.
Proof.
  intros Hi. rewrite Nat.add_comm, Nat.Div0.mod_add.
  by apply Nat.mod_small.
Qed.

(** The enqueues of [rest], when [j] batches of [b] rows were enqueued
    before: column [c] ends with row [c mod b] of batch [c / b]. *)
Lemma enqueue_all_from (D b n : nat) (rest : list (tensor3 scalar)) :
  0 < b →
  Forall (λ keys, wf3 keys ∧ shape3 keys = (2, b, D)) rest →
  ∀ (j : nat) s Q,
    n = j + length rest →
    queue_contents s = Some Q → wf3 Q → shape3 Q = (2, D, n * b) →
    queue_size (hparams s) = Z.of_nat (n * b) →
    queue_ptr s = Z.of_nat ((j * b) mod (n * b)) →
    ∃ Q',
      Scenario.enqueue_all rest s =
        Returned tt (set_queue_ptr (Z.of_nat ((n * b) mod (n * b)))
                       (set_heap (<[queue s := Q']> (heap s)) s)) ∧
      wf3 Q' ∧ shape3 Q' = (2, D, n * b) ∧
      ∀ st d c,
        get3 Q' st d c =
          if decide (c < j * b) then get3 Q st d c
          else match rest !! (c / b - j) with
               | Some keys => get3 keys st (c mod b) d
               | None => get3 Q st d c
               end.
Proof.
  intros Hb Hall. induction Hall as [|keys rest [Hwfk Hshk] Hall IH];
    intros j s Q Hn HQ HwfQ HshQ Hsize Hptr; simpl in *.
  - exists Q. split_and!; [|done|done|].
    + unfold ret. f_equal. rewrite list_insert_id by done.
      assert (n = j) as -> by lia. rewrite <- Hptr. by destruct s.
    + intros st d c. by case_decide.
  - assert (j * b + b ≤ n * b) as Hfit by nia.
    assert ((j * b) mod (n * b) = j * b) as Hsmall
      by (apply Nat.mod_small; nia).
    rewrite Hsmall in Hptr.
    destruct (enqueue_inside s keys Q D (n * b) b (j * b))
      as (Q1 & Hrun & HwfQ1 & HshQ1 & Hget1);
      [done|done|done|done|done|done| |nia|done|done|].
    { exists (Z.of_nat n). lia. }
    unfold bind at 1. rewrite Hrun.
    set (s1 := set_queue_ptr _ _).
    destruct (IH (S j) s1 Q1) as (Q' & Hrun' & HwfQ' & HshQ' & Hget');
      [lia| |done|done|done| |].
    { unfold s1, queue_contents; simpl.
      apply list_lookup_insert_eq. by eapply lookup_lt_Some. }
    { unfold s1; simpl. do 2 f_equal. lia. }
    exists Q'. split_and!; [|done|done|].
    + rewrite Hrun'. unfold s1, set_queue_ptr, set_heap; simpl.
      by rewrite list_insert_insert_eq.
    + intros st d c. rewrite Hget', Hget1.
      pose proof (Nat.div_mod_eq c b) as Hdm.
      pose proof (Nat.mod_upper_bound c b ltac:(lia)) as Hlt.
      destruct (decide (c < j * b)) as [Hc|Hc].
      * rewrite decide_True by lia. rewrite decide_False by lia. done.
      * destruct (decide (c < S j * b)) as [Hc'|Hc'].
        -- rewrite decide_True by lia.
           assert (c / b = j) as Hq by nia.
           rewrite Hq, Nat.sub_diag; simpl. f_equal. nia.
        -- assert (S j ≤ c / b) as Hq by nia.
           replace (c / b - j) with (S (c / b - S j)) by lia. simpl.
           destruct (rest !! (c / b - S j)); [done|].
           rewrite decide_False by lia. done.
Qed.

(** C1, amended.  An enqueue of keys of shape (2, batch, D), with
    [batch] dividing the capacity [C], [0 <= ptr < C] and, in addition,
    [ptr + batch <= C] (as is the case when [ptr] is a multiple of
    [batch]): the call returns, the buffer holds the keys, permuted, in
    the columns [ptr .. ptr + batch - 1] and its old contents in every
    other column, nothing else of [self] changes, and the pointer is
    [(ptr + batch) mod C], again within [0 .. C - 1]. *)
Theorem enqueue_writes_slice_and_advances s keys Q (D C batch : nat) :
  queue_contents s = Some Q → wf3 Q → shape3 Q = (2, D, C) →
  queue_size (hparams s) = Z.of_nat C →
  wf3 keys → shape3 keys = (2, batch, D) →
  (Z.of_nat batch | Z.of_nat C)%Z →
  (0 ≤ queue_ptr s < Z.of_nat C)%Z →
  (queue_ptr s + Z.of_nat batch ≤ Z.of_nat C)%Z →
  let ptr' := ((queue_ptr s + Z.of_nat batch) mod Z.of_nat C)%Z in
  ∃ Q' s',
    _dequeue_and_enqueue keys s = Returned tt s' ∧
    s' = set_queue_ptr ptr' (set_heap (<[queue s := Q']> (heap s)) s) ∧
    queue_contents s' = Some Q' ∧
    wf3 Q' ∧ shape3 Q' = (2, D, C) ∧
    (∀ st d c,
       get3 Q' st d c =
         if decide (queue_ptr s ≤ Z.of_nat c
                    < queue_ptr s + Z.of_nat batch)%Z
         then get3 keys st (c - Z.to_nat (queue_ptr s)) d
         else get3 Q st d c) ∧
    (0 ≤ ptr' < Z.of_nat C)%Z.
Proof.
  intros HQ HwfQ HshQ Hsize Hwfk Hshk Hdiv Hptr Hfit ptr'.
  set (p := Z.to_nat (queue_ptr s)).
  assert (queue_ptr s = Z.of_nat p) as Hp by (unfold p; lia).
  destruct (enqueue_inside s keys Q D C batch p)
    as (Q' & Hrun & HwfQ' & HshQ' & Hget); [done..|lia|done|lia|].
  assert (ptr' = Z.of_nat ((p + batch) mod C)) as Hptr'.
  { unfold ptr'. rewrite Hp, <- Nat2Z.inj_add, <- Nat2Z.inj_mod. done. }
  assert (0 ≤ ptr' < Z.of_nat C)%Z as Hbound
    by (unfold ptr'; apply Z.mod_pos_bound; lia).
  exists Q', (set_queue_ptr ptr'
                (set_heap (<[queue s := Q']> (heap s)) s)).
  split_and!; [by rewrite Hptr'|done| |done|done| |lia|lia].
  - unfold queue_contents; simpl.
    apply list_lookup_insert_eq. by eapply lookup_lt_Some.
  - intros st d c. rewrite Hget.
    destruct (decide (p ≤ c < p + batch)).
    + rewrite decide_True by lia. done.
    + rewrite decide_False by lia. done.
Qed.

(** C5.  When the batch size of the keys does not divide the capacity
    the enqueue raises, at the assertion or, for an empty batch, at
    the modulus before it; [self], so the queue and the pointer, is as
    it was. *)
Theorem enqueue_fails_when_batch_does_not_divide s keys :
  ¬ (Z.of_nat (dim1 keys) | queue_size (hparams s))%Z →
  _dequeue_and_enqueue keys s =
    Raised (if decide (dim1 keys = 0) then ZeroDivisionError
            else AssertionError) s.
Proof.
  intros Hndiv.
  unfold _dequeue_and_enqueue, bind, get_self, py_mod.
  destruct (decide (dim1 keys = 0)) as [H0|H0].
  - rewrite decide_True by lia. done.
  - rewrite decide_False by lia. unfold ret, py_assert.
    destruct (Z.eqb_spec (queue_size (hparams s) mod Z.of_nat (dim1 keys))
                         0) as [Hmod|Hmod]; [|done].
    exfalso. apply Hndiv. apply Z.mod_divide; [lia|done].
Qed.

(** A full cycle.  From pointer 0, one enqueue for each of the
    [C / b] batches of [b] rows: column [c] of the queue ends with row
    [c mod b] of batch [c / b]; so row [i] of batch [j] is in column
    [j * b + i] and in no other, and the pointer is 0 again. *)
Lemma enqueue_all_fills_queue s Q (batches : list (tensor3 scalar))
    (D b : nat) :
  let C := length batches * b in
  0 < b →
  Forall (λ keys, wf3 keys ∧ shape3 keys = (2, b, D)) batches →
  queue_contents s = Some Q → wf3 Q → shape3 Q = (2, D, C) →
  queue_size (hparams s) = Z.of_nat C →
  queue_ptr s = 0%Z →
  ∃ Q' s',
    Scenario.enqueue_all batches s = Returned tt s' ∧
    s' = set_queue_ptr 0 (set_heap (<[queue s := Q']> (heap s)) s) ∧
    queue_contents s' = Some Q' ∧ queue_ptr s' = 0%Z ∧
    wf3 Q' ∧ shape3 Q' = (2, D, C) ∧
    (∀ st d c, c < C →
       ∃ keys, batches !! (c / b) = Some keys ∧
               get3 Q' st d c = get3 keys st (c mod b) d) ∧
    (∀ j keys i st d, batches !! j = Some keys → i < b →
       get3 Q' st d (j * b + i) = get3 keys st i d) ∧
    (∀ j i j' i', i < b → i' < b →
       j * b + i = j' * b + i' → j = j' ∧ i = i').
Proof.
  intros C Hb Hall HQ HwfQ HshQ Hsize Hptr.
  destruct (enqueue_all_from D b (length batches) batches Hb Hall 0 s Q)
    as (Q' & Hrun & HwfQ' & HshQ' & Hget); [done..| |].
  { rewrite Hptr. simpl. by rewrite Nat.Div0.mod_0_l. }
  rewrite Nat.Div0.mod_same in Hrun. simpl in Hrun.
  exists Q', (set_queue_ptr 0 (set_heap (<[queue s := Q']> (heap s)) s)).
  split_and!; [done|done| |done|done|done| | |].
  - unfold queue_contents; simpl.
    apply list_lookup_insert_eq. by eapply lookup_lt_Some.
  - intros st d c Hc. rewrite Hget. simpl.
    rewrite Nat.sub_0_r.
    assert (c / b < length batches) as Hq.
    { apply Nat.Div0.div_lt_upper_bound. unfold C in Hc. lia. }
    destruct (lookup_lt_is_Some_2 batches (c / b) Hq) as [keys Hk].
    exists keys. by rewrite Hk.
  - intros j keys i st d Hk Hi. rewrite Hget. simpl.
    rewrite Nat.sub_0_r, div_row, mod_row by done.
    by rewrite Hk.
  - intros j i j' i' Hi Hi' Heq. split.
    + rewrite <- (div_row b j i), <- (div_row b j' i') by done.
      by rewrite Heq.
    + rewrite <- (mod_row b j i), <- (mod_row b j' i') by done.
      by rewrite Heq.
Qed.

End facts.

Import Scenario.

(** An instance: capacity 8, pointer 0, keys of four rows. *)
Lemma enqueue_writes_slice_and_advances_witness :
  (Z.of_nat 4 | Z.of_nat 8)%Z ∧
  (0 ≤ queue_ptr q_state < Z.of_nat 8)%Z ∧
  (queue_ptr q_state + Z.of_nat 4 ≤ Z.of_nat 8)%Z ∧
  ∃ Q' s', @_dequeue_and_enqueue QBackend.backend q_keys4 q_state
             = Returned tt s' ∧
           queue_ptr s' = 4%Z ∧ queue_contents s' = Some Q' ∧
           get3 Q' 0 1 2 = Some (4 # 5)%Q ∧ get3 Q' 0 0 4 = Some (3 # 5)%Q.
Proof.
  assert (Z.of_nat 4 | Z.of_nat 8)%Z as Hdiv by (exists 2%Z; reflexivity).
  assert (0 ≤ queue_ptr q_state < Z.of_nat 8)%Z as Hptr
    by (vm_compute; split; [discriminate | reflexivity]).
  assert (queue_ptr q_state + Z.of_nat 4 ≤ Z.of_nat 8)%Z as Hfit
    by (vm_compute; discriminate).
  split_and!; [exact Hdiv|apply Hptr|apply Hptr|exact Hfit|].
  destruct (@enqueue_writes_slice_and_advances QBackend.backend
              q_state q_keys4 _ 2 8 4
              eq_refl ltac:(solve_wf3) eq_refl eq_refl
              ltac:(solve_wf3) eq_refl Hdiv Hptr Hfit)
    as (Q' & s' & Hrun & Hs' & HQ' & _ & _ & Hget & _).
  exists Q', s'. split_and!; [exact Hrun| |exact HQ'| |].
  - rewrite Hs'. reflexivity.
  - rewrite Hget. reflexivity.
  - rewrite Hget. reflexivity.
Defined.

(** C1 as stated fails: the capacity is 8 and the pointer is 6 after an
    enqueue of 2 rows and one of 4; keys of 4 rows meet every condition
    of the claim, and the slice [6:10] holds 2 columns only: the write
    raises, nothing is written and the pointer stays. *)
Lemma enqueue_at_pointer_6_raises :
  (∃ Q, queue_contents q_state_ptr6 = Some Q ∧ wf3 Q ∧
        shape3 Q = (2, 2, 8)) ∧
  queue_size (hparams q_state_ptr6) = Z.of_nat 8 ∧
  wf3 q_keys4 ∧ shape3 q_keys4 = (2, 4, 2) ∧
  (Z.of_nat 4 | Z.of_nat 8)%Z ∧
  (0 ≤ queue_ptr q_state_ptr6 < Z.of_nat 8)%Z ∧
  queue_ptr q_state_ptr6 = 6%Z ∧
  @_dequeue_and_enqueue QBackend.backend q_keys4 q_state_ptr6
    = Raised RuntimeError q_state_ptr6.
Proof.
  split_and!; try reflexivity.
  - eexists. split_and!; [reflexivity|solve_wf3|reflexivity].
  - solve_wf3.
  - by exists 2%Z.
  - done.
Qed.

(** An instance: capacity 8, keys of three rows. *)
Lemma enqueue_fails_when_batch_does_not_divide_witness :
  ¬ (Z.of_nat (dim1 q_keys3) | queue_size (hparams q_state))%Z ∧
  @_dequeue_and_enqueue QBackend.backend q_keys3 q_state
    = Raised AssertionError q_state.
Proof.
  assert (¬ (Z.of_nat (dim1 q_keys3) | queue_size (hparams q_state))%Z)
    as Hndiv.
  { intros [k Hk]. change (8 = k * 3)%Z in Hk. lia. }
  split; [exact Hndiv|].
  exact (@enqueue_fails_when_batch_does_not_divide QBackend.backend
           q_state q_keys3 Hndiv).
Defined.

(** C4.  From pointer 0, after one enqueue for each of [C / b] batches of
    [b] rows, row [i] of batch [j] is column [j * b + i] of the queue, one
    column for each row and one row for each column, and the pointer is 0
    again.  With capacity 8, [b = 4] and [D = 2]: after four rows (1,0)
    and four rows (0,1), the first four columns are (1,0), the last four
    are (0,1), and the pointer is 0. *)
Theorem enqueue_cycle_holds_every_row_once :
  (∀ (B : Backend) (s : state) (Q : tensor3 scalar)
     (batches : list (tensor3 scalar)) (D b : nat),
     let C := length batches * b in
     0 < b →
     Forall (λ keys, wf3 keys ∧ shape3 keys = (2, b, D)) batches →
     queue_contents s = Some Q → wf3 Q → shape3 Q = (2, D, C) →
     queue_size (hparams s) = Z.of_nat C →
     queue_ptr s = 0%Z →
     ∃ Q' s',
       enqueue_all batches s = Returned tt s' ∧
       s' = set_queue_ptr 0 (set_heap (<[queue s := Q']> (heap s)) s) ∧
       queue_contents s' = Some Q' ∧ queue_ptr s' = 0%Z ∧
       wf3 Q' ∧ shape3 Q' = (2, D, C) ∧
       (∀ st d c, c < C →
          ∃ keys, batches !! (c / b) = Some keys ∧
                  get3 Q' st d c = get3 keys st (c mod b) d) ∧
       (∀ j keys i st d, batches !! j = Some keys → i < b →
          get3 Q' st d (j * b + i) = get3 keys st i d) ∧
       (∀ j i j' i', i < b → i' < b →
          j * b + i = j' * b + i' → j = j' ∧ i = i')) ∧
  (∃ s',
     @enqueue_all QBackend.backend [rows10; rows01] q_state
       = Returned tt s' ∧
     queue_contents s' =
       Some (T3 2 2 8 [[[1; 1; 1; 1; 0; 0; 0; 0]; [0; 0; 0; 0; 1; 1; 1; 1]];
                       [[1; 1; 1; 1; 0; 0; 0; 0]; [0; 0; 0; 0; 1; 1; 1; 1]]]%Q)
     ∧ queue_ptr s' = 0%Z).
Proof.
  split.
  - intros B. apply (@enqueue_all_fills_queue B).
  - eexists. split_and!; reflexivity.
Qed.

(** An instance: the two batches of the scenario; row 1 of the second
    batch is column 5. *)
Lemma enqueue_cycle_holds_every_row_once_witness :
  ∃ Q' s',
    @enqueue_all QBackend.backend [rows10; rows01] q_state
      = Returned tt s' ∧
    queue_contents s' = Some Q' ∧ queue_ptr s' = 0%Z ∧
    get3 Q' 0 0 5 = get3 rows01 0 1 0.
Proof.
  destruct (proj1 enqueue_cycle_holds_every_row_once QBackend.backend
              q_state _ [rows10; rows01] 2 4
              ltac:(lia)
              ltac:(repeat constructor)
              eq_refl ltac:(solve_wf3) eq_refl eq_refl eq_refl)
    as (Q' & s' & Hrun & _ & HQ' & Hptr & _ & _ & _ & Hrow & _).
  exists Q', s'. split_and!; [exact Hrun|exact HQ'|exact Hptr|].
  exact (Hrow 1 rows01 1 0 0 eq_refl ltac:(lia)).
Defined.

End QueueFacts.

(** ** Batch shuffle and unshuffle *)

Module ShuffleFacts.
Import Shuffle.
Section facts.
Context {A : Type}.

(** The slices of the ranks, in order, make up the global list. *)
Lemma join_rank_slices {X : Type} (W n : nat) (l : list X) :
  length l = W * n →
  mjoin (map (λ r, rank_slice n r l) (seq 0 W)) = l.
Proof.
  revert l. induction W as [|W IH]; intros l Hlen.
  - destruct l; [done|simpl in Hlen; lia].
  - simpl. rewrite <- fmap_S_seq.
    change (map ?f (S <$> ?k)) with (f <$> (S <$> k)).
    rewrite <- list_fmap_compose.
    rewrite (list_fmap_ext _ (λ r, rank_slice n r (drop n l)) (seq 0 W)).
    2:{ intros _ r _. unfold rank_slice, compose. rewrite drop_drop.
        f_equal. }
    change ((?f <$> ?k)) with (map f k).
    rewrite IH by (rewrite length_drop; lia).
    unfold rank_slice. simpl. apply take_drop.
Qed.

Lemma index_of_lookup (j : nat) (p : list nat) :
  j ∈ p → p !! index_of j p = Some j.
Proof.
  induction p as [|i p IH]; [by intros ?%elem_of_nil|].
  intros Hin. simpl. case_decide as Hij; [by subst|].
  simpl. apply IH. apply elem_of_cons in Hin as [?|?]; [congruence|done].
Qed.

Lemma inverse_permutation_lookup (p : list nat) (j : nat) :
  j < length p → inverse_permutation p !! j = Some (index_of j p).
Proof.
  intros Hj. unfold inverse_permutation.
  change (map ?f ?k) with (f <$> k).
  rewrite list_lookup_fmap, lookup_seq_lt by done. done.
Qed.

Lemma inverse_permutation_length (p : list nat) :
  length (inverse_permutation p) = length p.
Proof. unfold inverse_permutation. by rewrite length_map, length_seq. Qed.

Lemma rank_slice_lookup {X : Type} (n r t : nat) (l : list X) :
  t < n → rank_slice n r l !! t = l !! (r * n + t).
Proof.
  intros Ht. unfold rank_slice.
  by rewrite lookup_take_lt, lookup_drop.
Qed.

Lemma rank_slice_length {X : Type} (W n r : nat) (l : list X) :
  length l = W * n → r < W → length (rank_slice n r l) = n.
Proof.
  intros Hl Hr. unfold rank_slice.
  rewrite length_take, length_drop. nia.
Qed.

Lemma rank_slice_elem {X : Type} (n r : nat) (l : list X) (x : X) :
  x ∈ rank_slice n r l → x ∈ l.
Proof.
  unfold rank_slice. intros H.
  by apply (subseteq_drop (r * n)), (subseteq_take n).
Qed.

Lemma gather_all_length (n : nat) (xs : list (list A)) :
  Forall (λ x, length x = n) xs →
  length (gather_all xs) = length xs * n.
Proof.
  intros Hall. unfold gather_all.
  by rewrite length_join, (sum_list_fmap_same n).
Qed.

(** C2.  For batches [xs] of [n] rows on any number of replicas and
    any global permutation [p]: the shuffle succeeds on every replica,
    and on every replica the unshuffle of the shuffled batches, with
    the inverse record the shuffle returned there, gives back the
    batch the replica held, element for element. *)
Theorem unshuffle_shuffle (xs : list (list A)) (n : nat) (p : list nat) :
  Forall (λ x, length x = n) xs →
  p ≡ₚ seq 0 (length xs * n) →
  ∃ out,
    shuffle_world p xs = Some out ∧ length out = length xs ∧
    ∀ r x, xs !! r = Some x →
      ∃ y inverse_record,
        out !! r = Some (y, inverse_record) ∧
        unshuffle (fst <$> out) inverse_record = Some x.
Proof.
  intros Hxs Hp.
  set (W := length xs). set (G := gather_all xs).
  set (R := λ (i : nat) (y : A), G !! i = Some y).
  assert (length G = W * n) as HlenG by by apply gather_all_length.
  assert (length p = W * n) as Hlenp.
  { rewrite (Permutation_length Hp). apply length_seq. }
  assert (∀ i, i ∈ p ↔ i < W * n) as Hin.
  { intros i. rewrite Hp, elem_of_seq. lia. }
  (* the shuffle on one replica *)
  assert (∀ r x, xs !! r = Some x →
            ∃ rows, shuffle p xs r
                      = Some (rows, rank_slice n r (inverse_permutation p))
                    ∧ Forall2 R (rank_slice n r p) rows) as Hone.
  { intros r x Hx. unfold shuffle. rewrite Hx. simpl.
    rewrite (Forall_lookup_1 _ _ _ _ Hxs Hx).
    destruct (mapM_is_Some_2 (λ i, G !! i) (rank_slice n r p))
      as [rows Hrows].
    { apply Forall_forall. intros i Hi%rank_slice_elem%Hin. simpl.
      apply lookup_lt_is_Some_2. lia. }
    exists rows. unfold reorder. fold G. rewrite Hrows. simpl.
    split; [done|]. by apply mapM_Some_1. }
  (* the shuffle on every replica *)
  destruct (mapM_is_Some_2 (shuffle p xs) (seq 0 W)) as [out Hout].
  { apply Forall_forall. intros r [_ Hr]%elem_of_seq. simpl in *.
    destruct (lookup_lt_is_Some_2 xs r Hr) as [x Hx].
    destruct (Hone r x Hx) as (rows & -> & _). done. }
  pose proof (mapM_Some_1 _ _ _ Hout) as Hout2.
  assert (length out = W) as Hlenout.
  { rewrite <- (Forall2_length _ _ _ Hout2). apply length_seq. }
  assert (∀ r x, xs !! r = Some x →
            ∃ rows, out !! r
                      = Some (rows, rank_slice n r (inverse_permutation p))
                    ∧ Forall2 R (rank_slice n r p) rows) as Hat.
  { intros r x Hx. pose proof (lookup_lt_Some _ _ _ Hx) as Hr.
    destruct (Hone r x Hx) as (rows & Hsh & Hrows).
    exists rows. split; [|done].
    destruct (Forall2_lookup_l _ _ _ r r Hout2) as (o & Ho & Hso).
    { by apply lookup_seq_lt. }
    congruence. }
  (* the gathered shuffled batch is the global batch reordered by p *)
  assert (Forall2 R p (gather_all (fst <$> out))) as Hglobal.
  { rewrite <- (join_rank_slices W n p Hlenp). unfold gather_all.
    apply Forall2_join.
    change (map ?f ?k) with (f <$> k).
    apply Forall2_fmap. apply Forall2_same_length_lookup_2.
    { by rewrite length_seq. }
    intros i r o [-> Hi]%lookup_seq Ho. simpl in *.
    destruct (lookup_lt_is_Some_2 xs i Hi) as [x Hx].
    destruct (Hat i x Hx) as (rows & Ho' & Hrows).
    rewrite Ho' in Ho. by injection Ho as <-. }
  exists out. split_and!; [done|done|].
  intros r x Hx. pose proof (lookup_lt_Some _ _ _ Hx) as Hr.
  destruct (Hat r x Hx) as (rows & Ho & _).
  exists rows, (rank_slice n r (inverse_permutation p)).
  split; [done|]. unfold unshuffle, reorder. apply mapM_Some_2.
  pose proof (Forall_lookup_1 _ _ _ _ Hxs Hx) as Hlenx.
  apply Forall2_same_length_lookup_2.
  { rewrite (rank_slice_length W) by
      (by rewrite ?inverse_permutation_length). done. }
  intros t i y Hi Hy.
  assert (t < n) as Ht by (rewrite <- Hlenx; by eapply lookup_lt_Some).
  rewrite rank_slice_lookup in Hi by done.
  rewrite inverse_permutation_lookup in Hi by nia.
  injection Hi as <-.
  assert (p !! index_of (r * n + t) p = Some (r * n + t)) as Hpi.
  { apply index_of_lookup, Hin. nia. }
  destruct (Forall2_lookup_l _ _ _ _ _ Hglobal Hpi) as (y' & Hy' & HG).
  rewrite Hy'. unfold R, G, gather_all in HG.
  apply (join_lookup_Some_same_length' n) in HG; [|done|done].
  destruct HG as (x' & Hx' & Hy''). congruence.
Qed.

End facts.

(** An instance: two replicas with two rows each. *)
Lemma unshuffle_shuffle_witness :
  Forall (λ x : list nat, length x = 2) [[10; 11]; [20; 21]] ∧
  [2; 0; 3; 1] ≡ₚ seq 0 (length [[10; 11]; [20; 21]] * 2) ∧
  shuffle_world [2; 0; 3; 1] [[10; 11]; [20; 21]]
    = Some [([20; 10], [1; 3]); ([21; 11], [0; 2])] ∧
  ∃ out,
    shuffle_world [2; 0; 3; 1] [[10; 11]; [20; 21]] = Some out ∧
    ∃ y inverse_record,
      out !! 1 = Some (y, inverse_record) ∧
      unshuffle (fst <$> out) inverse_record = Some [20; 21].
Proof.
  assert (Forall (λ x : list nat, length x = 2) [[10; 11]; [20; 21]])
    as Hxs by (repeat constructor).
  assert ([2; 0; 3; 1] ≡ₚ seq 0 (length [[10; 11]; [20; 21]] * 2)) as Hp.
  { simpl.
    apply (perm_trans (l' := [0; 2; 3; 1])); [apply perm_swap|].
    apply perm_skip.
    apply (perm_trans (l' := [2; 1; 3])); [apply perm_skip, perm_swap|].
    apply (perm_trans (l' := [1; 2; 3])); [apply perm_swap|].
    reflexivity. }
  split_and!; [exact Hxs|exact Hp|reflexivity|].
  destruct (unshuffle_shuffle [[10; 11]; [20; 21]] 2 [2; 0; 3; 1] Hxs Hp)
    as (out & Hout & _ & Hback).
  exists out. split; [exact Hout|].
  exact (Hback 1 [20; 21] eq_refl).
Defined.

End ShuffleFacts.

(** ** The training steps *)

Module StepFacts.
Import SLIP_MOCOV2 Step TensorFacts.
Section facts.
Context `{B : Backend}.
Implicit Types (s : state) (batch : list Img * list Img * TextEnc)
  (Q : tensor3 scalar).

Lemma view_snapshot s (h : list (tensor3 scalar)) Q (i : nat) :
  heap s = h ++ [Q] → view_contents s (length h, i) = select0 Q i.
Proof.
  intros Hh. unfold view_contents. simpl.
  rewrite Hh, lookup_app_r, Nat.sub_diag by lia. done.
Qed.

(** The step, run up to the queue update. *)
Lemma shared_forward_run rnd batch batch_idx mode s Q ssl :
  queue_contents s = Some Q →
  ssl_loss rnd s batch Q = Some ssl →
  shared_forward rnd batch batch_idx mode s =
    let s2 := before_enqueue rnd s batch Q in
    match keys rnd s batch with
    | None => Raised RuntimeError s2
    | Some ks =>
        match _dequeue_and_enqueue ks s2 with
        | Returned _ s3 =>
            Returned (result (c_loss s batch) ssl (ssl_scale (hparams s)))
                     s3
        | Raised e s3 => Raised e s3
        end
    end.
Proof.
  intros HQ Hssl. destruct batch as [[imgs1 imgs2] text].
  unfold ssl_loss in Hssl.
  destruct (select0 Q 1) as [n1|] eqn:Hn1; [|done].
  destruct (select0 Q 0) as [n0|] eqn:Hn0; [|done].
  simpl in Hssl. injection Hssl as <-.
  unfold keys, before_enqueue, loss_call1, loss_call2, result.
  unfold key1, key2, c_loss, projected1, images1, images2.
  unfold shared_forward, bind, get_self, ema_img_backbone,
    ema_mocov2_projector, modify.
  cbn [fst snd].
  destruct (_batch_shuffle_ddp rnd.1 (torch_stack imgs1))
    as [images1_k idx1].
  destruct (_batch_shuffle_ddp rnd.2 (torch_stack imgs2))
    as [images2_k idx2].
  cbn [fst snd].
  set (S := set_mocov2_projector_ema _ _).
  change S with (after_ema s). clear S.
  change (mocov2_projector (after_ema s)) with (mocov2_projector s).
  change (img_backbone (after_ema s)) with (img_backbone s).
  change (hparams (after_ema s)) with (hparams s).
  change (queue (after_ema s)) with (queue s).
  unfold clone_detach.
  change (heap (after_ema s)) with (heap s).
  unfold queue_contents in HQ. rewrite HQ.
  unfold getitem0 at 1.
  rewrite (view_snapshot _ (heap s) Q) by reflexivity. rewrite Hn1.
  unfold call_mocov2_loss at 1.
  rewrite (view_snapshot _ (heap s) Q) by reflexivity. rewrite Hn1.
  unfold getitem0 at 1.
  rewrite (view_snapshot _ (heap s) Q) by reflexivity. rewrite Hn0.
  unfold call_mocov2_loss at 1.
  rewrite (view_snapshot _ (heap s) Q) by reflexivity. rewrite Hn0.
  destruct (stack2 _ _) as [ks|]; [|reflexivity].
  unfold torch_call, ret at 1.
  destruct (_dequeue_and_enqueue ks _); reflexivity.
Qed.
Lemma same_but_queue_refl s : same_but_queue s s.
Proof. by repeat split. Qed.

(** The enqueue, however it ends, touches the contents of the buffer
    and the pointer and nothing else. *)
Lemma enqueue_frame (ks : tensor3 scalar) s :
  same_but_queue s (final_state (_dequeue_and_enqueue ks s)).
Proof.
  unfold _dequeue_and_enqueue, bind, get_self, py_mod, py_assert.
  case_decide; [apply same_but_queue_refl|].
  unfold ret at 1.
  destruct (_ =? _)%Z; [|apply same_but_queue_refl].
  unfold ret at 1, setitem_queue.
  destruct (queue_contents s) as [Q|]; [|apply same_but_queue_refl].
  destruct (setitem_last Q _ _ _) as [Q'|]; [|apply same_but_queue_refl].
  assert (same_but_queue s (set_heap (<[queue s := Q']> (heap s)) s))
    as Hwritten.
  { repeat split; simpl.
    - apply length_insert.
    - intros l Hl. by apply list_lookup_insert_ne. }
  case_decide; [exact Hwritten|].
  unfold ret, modify. simpl. exact Hwritten.
Qed.

(** A step the queue update of which goes through. *)
Lemma shared_forward_returns rnd batch batch_idx mode s Q ks D C b :
  step_ready rnd s batch Q ks D C b →
  let s2 := before_enqueue rnd s batch Q in
  let ptr' := ((queue_ptr s + Z.of_nat b) mod Z.of_nat C)%Z in
  ∃ ssl Q' s',
    ssl_loss rnd s batch Q = Some ssl ∧
    shared_forward rnd batch batch_idx mode s =
      Returned (result (c_loss s batch) ssl (ssl_scale (hparams s))) s' ∧
    _dequeue_and_enqueue ks s2 = Returned tt s' ∧
    s' = set_queue_ptr ptr' (set_heap (<[queue s := Q']> (heap s2)) s2) ∧
    queue_contents s' = Some Q' ∧ wf3 Q' ∧ shape3 Q' = (2, D, C) ∧
    (∀ st d c,
       get3 Q' st d c =
         if decide (queue_ptr s ≤ Z.of_nat c
                    < queue_ptr s + Z.of_nat b)%Z
         then get3 ks st (c - Z.to_nat (queue_ptr s)) d
         else get3 Q st d c).
Proof.
  intros (HQ & HwfQ & HshQ & Hsize & Hks & Hwfk & Hshk & Hdiv & Hptr & Hfit)
         s2 ptr'.
  pose proof HwfQ as [HlenQ _].
  assert (dim0 Q = 2) as HQ0 by (by injection HshQ).
  assert (is_Some (ssl_loss rnd s batch Q)) as [ssl Hssl].
  { unfold ssl_loss, select0.
    destruct (lookup_lt_is_Some_2 (cells3 Q) 1) as [m1 ->]; [lia|].
    destruct (lookup_lt_is_Some_2 (cells3 Q) 0) as [m0 ->]; [lia|].
    simpl. eauto. }
  assert (queue_contents s2 = Some Q) as HQ2.
  { unfold queue_contents, s2, before_enqueue; simpl.
    apply lookup_app_l_Some. exact HQ. }
  set (p := Z.to_nat (queue_ptr s)).
  assert (queue_ptr s = Z.of_nat p) as Hp by (unfold p; lia).
  destruct (QueueFacts.enqueue_inside s2 ks Q D C b p)
    as (Q' & Hrun & HwfQ' & HshQ' & Hget); [done..|lia|done|lia|].
  assert (ptr' = Z.of_nat ((p + b) mod C)) as Hptr'.
  { unfold ptr'. rewrite Hp, <- Nat2Z.inj_add, <- Nat2Z.inj_mod. done. }
  rewrite <- Hptr' in Hrun.
  exists ssl, Q', (set_queue_ptr ptr' (set_heap (<[queue s := Q']> (heap s2)) s2)).
  rewrite (shared_forward_run rnd batch batch_idx mode s Q ssl HQ Hssl).
  rewrite Hks. cbv zeta. fold s2. rewrite Hrun.
  split_and!; [done|done|done|done| |done|done|].
  - unfold queue_contents; simpl.
    apply list_lookup_insert_eq. rewrite length_app.
    apply lookup_lt_Some in HQ. lia.
  - intros st d c. rewrite Hget.
    destruct (decide (p ≤ c < p + b)).
    + rewrite decide_True by lia. done.
    + rewrite decide_False by lia. done.
Qed.

(** In every step whose queue update goes through, the query of the
    second call of [mocov2_loss] is the normalised projector output of
    the first view. *)
Lemma second_call_query rnd batch batch_idx mode s Q ks D C b :
  step_ready rnd s batch Q ks D C b →
  ∃ m s',
    shared_forward rnd batch batch_idx mode s = Returned m s' ∧
    call_query <$> loss_calls s' !! (length (loss_calls s) + 1)
      = Some (normalize_dim1 (projected1 s batch)).
Proof.
  intros Hready.
  destruct (shared_forward_returns rnd batch batch_idx mode s Q ks D C b
              Hready) as (ssl & Q' & s' & _ & Hrun & _ & Hs' & _).
  eexists _, s'. split; [exact Hrun|].
  rewrite Hs'. unfold before_enqueue; simpl.
  rewrite <- app_assoc, lookup_app_r by lia.
  by replace (length (loss_calls s) + 1 - length (loss_calls s)) with 1
    by lia.
Qed.

(** The queue [_build_model] leaves: for every [d] and [c], the vector
    [Q[:, d, c]] across the streams is the normalised vector of the draw
    at the same place. *)
Lemma build_model_normalizes_across_streams (hp : hparams_t)
    (n1 n2 n3 n4 n5 : Net) (noise : tensor3 scalar) (d c : nat) :
  wf3 noise → (∀ v, length (normalize_vec v) = length v) →
  d < dim1 noise → c < dim2 noise →
  ∃ Q v,
    queue_contents (_build_model hp n1 n2 n3 n4 n5 noise) = Some Q ∧
    fibre0 noise d c = Some v ∧
    fibre0 Q d c = Some (normalize_vec v).
Proof.
  intros Hwf Hnv Hd Hc.
  destruct (normalize3_dim0_fibre normalize_vec noise d c Hwf Hnv Hd Hc)
    as (v & Hv & _ & Hnormed).
  by exists (normalize3_dim0 normalize_vec noise), v.
Qed.

Lemma result_lookups (c ssl scale : scalar) :
  result c ssl scale !! "loss" = Some (radd c (rmul scale ssl)) ∧
  result c ssl scale !! "clip_loss" = Some c ∧
  result c ssl scale !! "ssl_loss" = Some ssl ∧
  dom (result c ssl scale) = ({["loss"; "clip_loss"; "ssl_loss"]} : gset string).
Proof.
  unfold result. split_and!.
  - by rewrite lookup_insert_eq.
  - rewrite lookup_insert_ne by done. by rewrite lookup_insert_eq.
  - rewrite !lookup_insert_ne by done. by rewrite lookup_singleton_eq.
  - rewrite !dom_insert_L, dom_singleton_L. set_solver.
Qed.

Lemma simclr_shared_forward
    (views : list Img * list Img * list Img * TextEnc) batch_idx mode
    (s : SLIP_SIMCLR.state) :
  ∃ c ssl,
    SLIP_SIMCLR.shared_forward views batch_idx mode s =
      Returned (result c ssl (SLIP_SIMCLR.ssl_scale (SLIP_SIMCLR.hparams s)))
               s.
Proof.
  destruct views as [[[imgs_clip imgs1] imgs2] text].
  unfold SLIP_SIMCLR.shared_forward, bind, get_self, ret.
  eexists _, _. reflexivity.
Qed.

End facts.

Import Scenario.

(** The concrete step: capacity 8, pointer 0, a batch of four. *)
Lemma q_step_ready :
  @step_ready QBackend.backend q_rnd q_state q_batch
              q_queue0 q_step_keys 2 8 4.
Proof.
  unfold step_ready.
  split_and!;
    [reflexivity|solve_wf3|reflexivity|reflexivity
    |reflexivity|solve_wf3|reflexivity
    |by exists 2%Z|done|done|done].
Defined.

(** C7.  The "loss" entry of the mapping is
    [clip_loss + ssl_scale * ssl_loss] of the "clip_loss" and "ssl_loss"
    entries of the same mapping: for SLIP+MoCo-v2, in every step whose
    queue update goes through, with the entries the clip loss and the
    MoCo loss of the step; for SLIP+SimCLR, in every step. *)
Theorem loss_is_clip_loss_plus_scaled_ssl_loss :
  (∀ (B : Backend) rnd batch batch_idx mode (s : SLIP_MOCOV2.state)
     Q ks D C b,
     step_ready rnd s batch Q ks D C b →
     ∃ m s' c l,
       SLIP_MOCOV2.shared_forward rnd batch batch_idx mode s
         = Returned m s' ∧
       c = c_loss s batch ∧ ssl_loss rnd s batch Q = Some l ∧
       m !! "clip_loss" = Some c ∧ m !! "ssl_loss" = Some l ∧
       m !! "loss" =
         Some (radd c (rmul (SLIP_MOCOV2.ssl_scale (hparams s)) l))) ∧
  (∀ (B : Backend) views batch_idx mode (s : SLIP_SIMCLR.state),
     ∃ m c l,
       SLIP_SIMCLR.shared_forward views batch_idx mode s = Returned m s ∧
       m !! "clip_loss" = Some c ∧ m !! "ssl_loss" = Some l ∧
       m !! "loss" =
         Some (radd c
                 (rmul (SLIP_SIMCLR.ssl_scale (SLIP_SIMCLR.hparams s)) l))).
Proof.
  split.
  - intros B rnd batch batch_idx mode s Q ks D C b Hready.
    destruct (shared_forward_returns rnd batch batch_idx mode s Q ks D C b
                Hready) as (ssl & Q' & s' & Hssl & Hrun & _).
    destruct (result_lookups (c_loss s batch) ssl
                (SLIP_MOCOV2.ssl_scale (hparams s)))
      as (Hl & Hc & Hs & _).
    eexists _, s', (c_loss s batch), ssl.
    split_and!; [exact Hrun|reflexivity|exact Hssl|exact Hc|exact Hs|exact Hl].
  - intros B views batch_idx mode s.
    destruct (simclr_shared_forward views batch_idx mode s)
      as (c & ssl & Hrun).
    destruct (result_lookups c ssl
                (SLIP_SIMCLR.ssl_scale (SLIP_SIMCLR.hparams s)))
      as (Hl & Hc & Hs & _).
    eexists _, c, ssl.
    split_and!; [exact Hrun|exact Hc|exact Hs|exact Hl].
Qed.

(** An instance: the step on [q_state]. *)
Lemma loss_is_clip_loss_plus_scaled_ssl_loss_witness :
  ∃ m s',
    @SLIP_MOCOV2.shared_forward QBackend.backend q_rnd q_batch 0%Z "train"
      q_state = Returned m s' ∧
    m !! "clip_loss" = Some (-65 # 2)%Q ∧
    m !! "ssl_loss" = Some (102772 # 1547)%Q ∧
    m !! "loss" = Some (104989 # 3094)%Q.
Proof.
  destruct (proj1 loss_is_clip_loss_plus_scaled_ssl_loss QBackend.backend
              q_rnd q_batch 0%Z "train" q_state
              q_queue0 q_step_keys 2 8 4 q_step_ready)
    as (m & s' & c & l & Hrun & Hc & Hl & Hmc & Hml & Hm).
  exists m, s'.
  assert (c = (-65 # 2)%Q) as -> by (rewrite Hc; reflexivity).
  assert (l = (102772 # 1547)%Q) as ->.
  { vm_compute in Hl. by injection Hl as <-. }
  split_and!; [exact Hrun|exact Hmc|exact Hml|exact Hm].
Defined.

(** C6, amended.  SLIP+MoCo-v2 (in every step whose queue update goes
    through) and SLIP+SimCLR (in every step) return a mapping with the
    keys "loss", "clip_loss" and "ssl_loss" and no other; VICReg returns
    a mapping whose only key is "loss", bound to the value of
    [vicreg_loss]. *)
Theorem shared_forward_keys :
  (∀ (B : Backend) rnd batch batch_idx mode (s : SLIP_MOCOV2.state)
     Q ks D C b,
     step_ready rnd s batch Q ks D C b →
     ∃ m s',
       SLIP_MOCOV2.shared_forward rnd batch batch_idx mode s
         = Returned m s' ∧
       dom m = ({["loss"; "clip_loss"; "ssl_loss"]} : gset string)) ∧
  (∀ (B : Backend) views batch_idx mode (s : SLIP_SIMCLR.state),
     ∃ m,
       SLIP_SIMCLR.shared_forward views batch_idx mode s = Returned m s ∧
       dom m = ({["loss"; "clip_loss"; "ssl_loss"]} : gset string)) ∧
  (∀ (B : Backend) views batch_idx mode (s : VICREG.state),
     ∃ m v,
       VICREG.shared_forward views batch_idx mode s = Returned m s ∧
       m = {["loss" := v]} ∧
       dom m = ({["loss"]} : gset string) ∧
       v = vicreg_loss
             (head_forward (VICREG.vicreg_projector s)
                (img_forward (VICREG.img_backbone s) (torch_stack views.1)))
             (head_forward (VICREG.vicreg_projector s)
                (img_forward (VICREG.img_backbone s) (torch_stack views.2)))
             (VICREG.invariance_lamb (VICREG.hparams s))
             (VICREG.variance_mu (VICREG.hparams s))
             (VICREG.covariance_v (VICREG.hparams s))).
Proof.
  split_and!.
  - intros B rnd batch batch_idx mode s Q ks D C b Hready.
    destruct (shared_forward_returns rnd batch batch_idx mode s Q ks D C b
                Hready) as (ssl & Q' & s' & Hssl & Hrun & _).
    eexists _, s'. split; [exact Hrun|]. apply result_lookups.
  - intros B views batch_idx mode s.
    destruct (simclr_shared_forward views batch_idx mode s)
      as (c & ssl & Hrun).
    eexists _. split; [exact Hrun|]. apply result_lookups.
  - intros B [imgs1 imgs2] batch_idx mode s.
    eexists _, _. split_and!; [reflexivity|reflexivity| |reflexivity].
    apply dom_singleton_L.
Qed.

(** An instance: the step on [q_state]. *)
Lemma shared_forward_keys_witness :
  ∃ m s',
    @SLIP_MOCOV2.shared_forward QBackend.backend q_rnd q_batch 0%Z "train"
      q_state = Returned m s' ∧
    dom m = ({["loss"; "clip_loss"; "ssl_loss"]} : gset string).
Proof.
  exact (proj1 shared_forward_keys QBackend.backend
           q_rnd q_batch 0%Z "train" q_state
           q_queue0 q_step_keys 2 8 4 q_step_ready).
Defined.

(** C6 as stated fails for VICReg: the mapping its step returns on two
    views of four images has the one entry "loss"; under every other
    key, so for every term of the VICReg loss, it has nothing. *)
Lemma vicreg_returns_loss_only :
  ∃ m,
    @VICREG.shared_forward QBackend.backend q_vicreg_batch 0%Z "train"
      q_vicreg_state = Returned m q_vicreg_state ∧
    m !! "loss" = Some (20275 # 4)%Q ∧
    size m = 1 ∧
    ∀ k : string, k ≠ "loss" → m !! k = None.
Proof.
  exists {["loss" := (20275 # 4)%Q]}. split_and!.
  - reflexivity.
  - reflexivity.
  - apply map_size_singleton.
  - intros k Hk. by apply lookup_singleton_ne.
Qed.

(** C9.  The enqueue, however it ends, changes the contents of the queue
    buffer and the pointer and nothing else.  In a step whose queue update
    goes through, [mocov2_loss] is called twice, with streams 1 and 0 of
    the tensor at a new address, not the address of the buffer; that
    tensor holds the contents [Q] the queue had when the step began, when
    the enqueue starts and still when the step returns, while the buffer
    holds the enqueued keys; and the "ssl_loss" returned is the one
    computed from [Q]. *)
Theorem negatives_are_a_snapshot_of_the_queue :
  (∀ (B : Backend) (ks : tensor3 scalar) (s : SLIP_MOCOV2.state),
     same_but_queue s (final_state (_dequeue_and_enqueue ks s))) ∧
  (∀ (B : Backend) rnd batch batch_idx mode (s : SLIP_MOCOV2.state)
     Q ks D C b,
     step_ready rnd s batch Q ks D C b →
     let snap := length (heap s) in
     ∃ m ssl Q' s',
       SLIP_MOCOV2.shared_forward rnd batch batch_idx mode s
         = Returned m s' ∧
       loss_calls s' =
         loss_calls s ++ [loss_call1 rnd s batch snap;
                          loss_call2 rnd s batch snap] ∧
       snap ≠ queue s ∧ queue s' = queue s ∧
       heap (before_enqueue rnd s batch Q) !! snap = Some Q ∧
       _dequeue_and_enqueue ks (before_enqueue rnd s batch Q)
         = Returned tt s' ∧
       heap s' !! snap = Some Q ∧
       queue_contents s' = Some Q' ∧
       queue_ptr s' = ((queue_ptr s + Z.of_nat b) mod Z.of_nat C)%Z ∧
       (∀ st d c,
          get3 Q' st d c =
            if decide (queue_ptr s ≤ Z.of_nat c < queue_ptr s + Z.of_nat b)%Z
            then get3 ks st (c - Z.to_nat (queue_ptr s)) d
            else get3 Q st d c) ∧
       ssl_loss rnd s batch Q = Some ssl ∧
       m !! "ssl_loss" = Some ssl).
Proof.
  split; [intros B; apply enqueue_frame|].
  intros B rnd batch batch_idx mode s Q ks D C b Hready snap.
  pose proof Hready as (HQ & _).
  pose proof (lookup_lt_Some _ _ _ HQ) as Hlt.
  destruct (shared_forward_returns rnd batch batch_idx mode s Q ks D C b
              Hready)
    as (ssl & Q' & s' & Hssl & Hrun & Henq & Hs' & HQ' & _ & _ & Hget).
  destruct (result_lookups (c_loss s batch) ssl
              (SLIP_MOCOV2.ssl_scale (hparams s))) as (_ & _ & Hl & _).
  assert (heap (before_enqueue rnd s batch Q) !! snap = Some Q) as Hsnap.
  { unfold before_enqueue; simpl. fold snap.
    rewrite lookup_app_r, Nat.sub_diag by (unfold snap; lia). done. }
  eexists _, ssl, Q', s'.
  split_and!; [exact Hrun| |unfold snap; lia| |exact Hsnap|exact Henq|
               |exact HQ'| |exact Hget|exact Hssl|exact Hl].
  - rewrite Hs'. unfold before_enqueue; simpl. by rewrite <- app_assoc.
  - by rewrite Hs'.
  - rewrite Hs'. simpl. rewrite list_lookup_insert_ne by (unfold snap; lia).
    exact Hsnap.
  - by rewrite Hs'.
Qed.

(** An instance: the step on [q_state]; the snapshot is at address 2 and
    keeps the 0 the buffer at address 1 has lost to the first key. *)
Lemma negatives_are_a_snapshot_of_the_queue_witness :
  ∃ m s',
    @SLIP_MOCOV2.shared_forward QBackend.backend q_rnd q_batch 0%Z "train"
      q_state = Returned m s' ∧
    heap s' !! 2 = Some q_queue0 ∧
    queue s' = 1 ∧ queue_ptr s' = 4%Z ∧
    (Q' ← queue_contents s'; get3 Q' 0 0 0) = Some (3 # 5)%Q ∧
    (Q' ← queue_contents s'; get3 Q' 0 1 0) = Some (4 # 5)%Q ∧
    get3 q_queue0 0 1 0 = Some 0%Q ∧
    m !! "ssl_loss" = Some (102772 # 1547)%Q.
Proof.
  destruct (proj2 negatives_are_a_snapshot_of_the_queue QBackend.backend
              q_rnd q_batch 0%Z "train" q_state
              q_queue0 q_step_keys 2 8 4 q_step_ready)
    as (m & ssl & Q' & s' & Hrun & _ & _ & Hq & _ & _ & Hsnap & HQ'
        & Hptr & Hget & Hssl & Hm).
  exists m, s'.
  assert (ssl = (102772 # 1547)%Q) as ->.
  { vm_compute in Hssl. by injection Hssl as <-. }
  split_and!; [exact Hrun|exact Hsnap|exact Hq| | | |reflexivity|exact Hm].
  - rewrite Hptr. reflexivity.
  - rewrite HQ'. simpl. rewrite Hget. reflexivity.
  - rewrite HQ'. simpl. rewrite Hget. reflexivity.
Defined.

(** C3, on the code.  A step on four image pairs, with a backbone of gain
    1 and a projector of gain 2: the query of the second call of
    [mocov2_loss] is the normalised projector output of the first view,
    row for row; the normalised projector output of the second view, which
    the claim requires there, is another tensor. *)
Theorem second_query_is_the_normalized_first_view :
  let run :=
    @SLIP_MOCOV2.shared_forward QBackend.backend q_rnd q_batch 0%Z "train"
      q_state in
  let second_call := @loss_calls QBackend.backend (final_state run) !! 1 in
  is_Some (returned run) ∧
  @call_query QBackend.backend <$> second_call
    = Some (T2 4 2 [[3 # 5; 4 # 5]; [5 # 13; 12 # 13]; [1; 0]; [0; 1]]%Q) ∧
  @call_key QBackend.backend <$> second_call
    = Some (T2 4 2 [[3 # 5; 4 # 5]; [5 # 13; 12 # 13]; [1; 0]; [0; 1]]%Q) ∧
  @call_negatives QBackend.backend <$> second_call = Some (2, 0) ∧
  @normalize_dim1 QBackend.backend
    (@projected1 QBackend.backend q_state q_batch)
    = T2 4 2 [[3 # 5; 4 # 5]; [5 # 13; 12 # 13]; [1; 0]; [0; 1]]%Q ∧
  @normalize_dim1 QBackend.backend
    (@projected2 QBackend.backend q_state q_batch)
    = T2 4 2 [[8 # 17; 15 # 17]; [4 # 5; 3 # 5]; [0; 1]; [7 # 25; 24 # 25]]%Q.
Proof.
  intros run second_call. unfold second_call, run. split_and!.
  - vm_compute. eexists. reflexivity.
  - vm_compute. reflexivity.
  - vm_compute. reflexivity.
  - vm_compute. reflexivity.
  - vm_compute. reflexivity.
  - vm_compute. reflexivity.
Qed.

(** C8, on the code.  The queue built from a draw of shape (2, 2, 8): what
    [normalize(dim=0)] makes unit vectors are the pairs [Q[:, d, c]] across
    the two streams; the embedding stored in column 0 of stream 0 is
    (3/5, 0), of squared norm 9/25, and the one in column 0 of stream 1 is
    (4/5, 1), of squared norm 41/25. *)
Theorem built_queue_is_normalized_across_streams :
  queue_contents Scenario.q_state = Some q_queue0 ∧
  queue_ptr Scenario.q_state = 0%Z ∧
  column q_queue0 0 0 = Some [3 # 5; 0]%Q ∧
  Qred (QBackend.sumsq [3 # 5; 0]%Q) = (9 # 25)%Q ∧
  column q_queue0 1 0 = Some [4 # 5; 1]%Q ∧
  Qred (QBackend.sumsq [4 # 5; 1]%Q) = (41 # 25)%Q ∧
  fibre0 q_queue0 0 0 = Some [3 # 5; 4 # 5]%Q ∧
  Qred (QBackend.sumsq [3 # 5; 4 # 5]%Q) = 1%Q.
Proof. split_and!; reflexivity. Qed.

(** C10.  [learnable_params] of SLIP+MoCo-v2 returns two groups, the image
    backbone tagged "backbone" and the MoCo-v2 projector tagged
    "projector"; the text backbone and the two CLIP projectors are in no
    group.  That of SLIP+SimCLR returns five groups: both backbones and the
    three projectors.  Neither changes the model. *)
Theorem learnable_params_groups :
  (∀ (B : Backend) (s : SLIP_MOCOV2.state),
     ∃ groups,
       SLIP_MOCOV2.learnable_params s = Returned groups s ∧
       groups = [ParamGroup "backbone" img_backbone_;
                 ParamGroup "projector" mocov2_projector_] ∧
       length groups = 2 ∧
       (text_backbone_ ∉ params <$> groups) ∧
       (img_projector_ ∉ params <$> groups) ∧
       (text_projector_ ∉ params <$> groups)) ∧
  (∀ (B : Backend) (s : SLIP_SIMCLR.state),
     ∃ groups,
       SLIP_SIMCLR.learnable_params s = Returned groups s ∧
       groups = [ParamGroup "backbone" img_backbone_;
                 ParamGroup "backbone" text_backbone_;
                 ParamGroup "projector" img_projector_;
                 ParamGroup "projector" text_projector_;
                 ParamGroup "projector" simclr_projector_] ∧
       length groups = 5 ∧
       text_backbone_ ∈ (params <$> groups) ∧
       img_projector_ ∈ (params <$> groups) ∧
       text_projector_ ∈ (params <$> groups) ∧
       simclr_projector_ ∈ (params <$> groups)).
Proof.
  split; intros B s; eexists; (split; [reflexivity|]);
    (split; [reflexivity|]); (split; [reflexivity|]); simpl.
  - split_and!; intros Hin;
      repeat (apply elem_of_cons in Hin as [Hin|Hin]; [discriminate|]);
      by apply elem_of_nil in Hin.
  - split_and!; set_solver.
Qed.

End StepFacts.

(** * Further properties *)

(** ** The queue over many enqueues *)

Module QueueInvFacts.
Import SLIP_MOCOV2 TensorFacts QueueInv.
Section facts.
Context `{B : Backend}.
Implicit Types (s : state) (keys Q : tensor3 scalar).

Lemma next_slot (K b a : nat) :
  (a * b + b) mod (K * b) = ((a + 1) mod K) * b.
Proof.
  replace (a * b + b) with ((a + 1) * b) by lia.
  apply Nat.Div0.mul_mod_distr_r.
Qed.


Lemma state_eta s :
  set_queue_ptr (queue_ptr s) (set_heap (heap s) s) = s.
Proof. by destruct s. Qed.

(** The enqueues of [rest] from slot [a] of the [K] slots of [b] columns:
    every slot ends with the last batch written to it. *)
Lemma enqueue_all_slots (D b K : nat) (rest : list (tensor3 scalar)) :
  0 < b → 0 < K →
  Forall (λ keys, wf3 keys ∧ shape3 keys = (2, b, D)) rest →
  ∀ (a : nat) s Q,
    a < K →
    queue_contents s = Some Q → wf3 Q → shape3 Q = (2, D, K * b) →
    queue_size (hparams s) = Z.of_nat (K * b) →
    queue_ptr s = Z.of_nat (a * b) →
    ∃ Q',
      Scenario.enqueue_all rest s =
        Returned tt
          (set_queue_ptr (Z.of_nat (((a + length rest) mod K) * b))
             (set_heap (<[queue s := Q']> (heap s)) s)) ∧
      wf3 Q' ∧ shape3 Q' = (2, D, K * b) ∧
      ∀ st d c,
        get3 Q' st d c =
          match last_in_slot K a (c / b) rest with
          | Some keys => get3 keys st (c mod b) d
          | None => get3 Q st d c
          end.
Proof.
  intros Hb HK Hall. induction Hall as [|keys rest [Hwfk Hshk] Hall IH];
    intros a s Q Ha HQ HwfQ HshQ Hsize Hptr; simpl.
  - exists Q. split_and!; [|done|done|done].
    unfold ret. f_equal. rewrite list_insert_id by done.
    rewrite Nat.add_0_r, Nat.mod_small, <- Hptr by done.
    symmetry. apply state_eta.
  - assert (a * b + b ≤ K * b) as Hfit by nia.
    destruct (QueueFacts.enqueue_inside s keys Q D (K * b) b (a * b))
      as (Q1 & Hrun & HwfQ1 & HshQ1 & Hget1);
      [done|done|done|done|done|done| |nia|done|done|].
    { exists (Z.of_nat K). lia. }
    unfold bind at 1. rewrite Hrun. rewrite next_slot.
    set (s1 := set_queue_ptr _ _).
    assert ((a + 1) mod K < K) as Ha' by (apply Nat.mod_upper_bound; lia).
    destruct (IH ((a + 1) mod K) s1 Q1 Ha')
      as (Q' & Hrun' & HwfQ' & HshQ' & Hget'); [|done|done|done|done|].
    { unfold s1, queue_contents; simpl.
      apply list_lookup_insert_eq. by eapply lookup_lt_Some. }
    exists Q'. split_and!; [|done|done|].
    + rewrite Hrun'. unfold s1, set_queue_ptr, set_heap; simpl.
      rewrite list_insert_insert_eq.
      rewrite Nat.Div0.add_mod_idemp_l.
      by replace (a + 1 + length rest) with (a + S (length rest)) by lia.
    + intros st d c. rewrite Hget'.
      destruct (last_in_slot K ((a + 1) mod K) (c / b) rest); [done|].
      rewrite Hget1.
      pose proof (Nat.div_mod_eq c b) as Hdm.
      pose proof (Nat.mod_upper_bound c b ltac:(lia)) as Hlt.
      remember (c / b) as q eqn:Hq. remember (c mod b) as r eqn:Hr.
      destruct (decide (a = q)) as [Haq|Hne].
      * rewrite decide_True by (subst a; nia). f_equal. subst a. nia.
      * rewrite decide_False; [done|]. intros [H1 H2]. apply Hne. nia.
Qed.

Lemma mod_second_lap (K n : nat) : K ≤ n < 2 * K → n mod K = n - K.
Proof.
  intros Hn. symmetry. apply (Nat.mod_unique n K 1 (n - K)); lia.
Qed.

(** No element reaches slot [i] when none of the [length l] writes from
    slot [a] lands there. *)
Lemma last_in_slot_None {X : Type} (K i : nat) (l : list X) :
  0 < K →
  ∀ a, a < K → (∀ j, j < length l → (a + j) mod K ≠ i) →
       last_in_slot K a i l = None.
Proof.
  intros HK. induction l as [|x l IH]; intros a Ha Hno; simpl; [done|].
  rewrite IH.
  - rewrite decide_False; [done|]. intros ->.
    apply (Hno 0); simpl; [lia|].
    rewrite Nat.add_0_r. by apply Nat.mod_small.
  - apply Nat.mod_upper_bound. lia.
  - intros j Hj. rewrite Nat.Div0.add_mod_idemp_l.
    replace (a + 1 + j) with (a + S j) by lia. apply Hno. simpl. lia.
Qed.

(** An element among the last [K] written is still in its slot. *)
Lemma last_in_slot_recent {X : Type} (K : nat) (l : list X) :
  0 < K →
  ∀ a j x, a < K → l !! j = Some x → length l ≤ j + K →
           last_in_slot K a ((a + j) mod K) l = Some x.
Proof.
  intros HK. induction l as [|y l IH]; intros a j x Ha Hj Hlen; [done|].
  simpl in *. destruct j as [|j]; simpl in Hj.
  - injection Hj as ->. rewrite Nat.add_0_r, (Nat.mod_small a K) by done.
    rewrite last_in_slot_None; [by rewrite decide_True|done| |].
    + apply Nat.mod_upper_bound. lia.
    + intros j Hj. rewrite Nat.Div0.add_mod_idemp_l.
      destruct (decide (a + 1 + j < K)).
      * rewrite Nat.mod_small by done. lia.
      * rewrite mod_second_lap by lia. lia.
  - assert ((a + S j) mod K = ((a + 1) mod K + j) mod K) as ->.
    { rewrite Nat.Div0.add_mod_idemp_l. f_equal. lia. }
    rewrite (IH ((a + 1) mod K) j x); [done| |done|lia].
    apply Nat.mod_upper_bound. lia.
Qed.

(** X2.  From pointer 0, any number [n] of enqueues of [b] rows into a
    queue of [K * b] columns returns; the pointer ends at
    [(n mod K) * b]; each of the last [K] batches is in the queue, batch
    [j] in the columns from [(j mod K) * b] on, so older batches are
    overwritten first in, first out; and the columns from [n * b] on,
    not reached yet, are as they were. *)
Theorem queue_holds_the_last_batches s Q (batches : list (tensor3 scalar))
    (D b K : nat) :
  0 < b → 0 < K →
  Forall (λ keys, wf3 keys ∧ shape3 keys = (2, b, D)) batches →
  queue_contents s = Some Q → wf3 Q → shape3 Q = (2, D, K * b) →
  queue_size (hparams s) = Z.of_nat (K * b) →
  queue_ptr s = 0%Z →
  ∃ Q' s',
    Scenario.enqueue_all batches s = Returned tt s' ∧
    queue_contents s' = Some Q' ∧
    queue_ptr s' = Z.of_nat ((length batches mod K) * b) ∧
    wf3 Q' ∧ shape3 Q' = (2, D, K * b) ∧
    (∀ j keys i st d,
       batches !! j = Some keys → length batches ≤ j + K → i < b →
       get3 Q' st d ((j mod K) * b + i) = get3 keys st i d) ∧
    (∀ st d c, length batches * b ≤ c → get3 Q' st d c = get3 Q st d c).
Proof.
  intros Hb HK Hall HQ HwfQ HshQ Hsize Hptr.
  destruct (enqueue_all_slots D b K batches Hb HK Hall 0 s Q)
    as (Q' & Hrun & HwfQ' & HshQ' & Hget); [done..|].
  simpl in Hrun.
  eexists Q', _. split_and!; [exact Hrun| |done|done|done| |].
  - unfold queue_contents; simpl.
    apply list_lookup_insert_eq. by eapply lookup_lt_Some.
  - intros j keys i st d Hj Hrecent Hi. rewrite Hget.
    rewrite QueueFacts.div_row, QueueFacts.mod_row by done.
    pose proof (last_in_slot_recent K batches HK 0 j keys HK Hj Hrecent)
      as Hslot.
    simpl in Hslot. by rewrite Hslot.
  - intros st d c Hc. rewrite Hget.
    rewrite last_in_slot_None; [done|done|done|].
    intros j Hj. simpl.
    pose proof (Nat.Div0.mod_le j K).
    pose proof (Nat.div_mod_eq c b).
    pose proof (Nat.mod_upper_bound c b ltac:(lia)).
    nia.
Qed.

Lemma slice_index_clamp (n q : nat) :
  slice_index n (Z.of_nat q) = q `min` n.
Proof.
  unfold slice_index. destruct (Z.ltb_spec (Z.of_nat q) 0); lia.
Qed.

Lemma broadcastable_spec (x y : nat) :
  broadcastable x y = true ↔ x = y ∨ x = 1.
Proof.
  unfold broadcastable.
  rewrite orb_true_iff, !bool_decide_eq_true. done.
Qed.

(** How the enqueue ends, by the shape of the keys. *)
Lemma enqueue_cases s keys Q (D C : nat) :
  queue_contents s = Some Q → shape3 Q = (2, D, C) →
  queue_size (hparams s) = Z.of_nat C →
  (0 ≤ queue_ptr s < Z.of_nat C)%Z →
  let accepted :=
    dim1 keys ≠ 0 ∧ (dim1 keys | C) ∧
    (dim0 keys = 2 ∨ dim0 keys = 1) ∧ (dim2 keys = D ∨ dim2 keys = 1) ∧
    (queue_ptr s + Z.of_nat (dim1 keys) ≤ Z.of_nat C)%Z in
  match _dequeue_and_enqueue keys s with
  | Returned _ _ => accepted
  | Raised _ s' => s' = s ∧ ¬ accepted
  end.
Proof.
  intros HQ HshQ Hsize Hptr. injection HshQ as HQ0 HQ1 HQ2.
  set (b := dim1 keys). set (p := Z.to_nat (queue_ptr s)).
  assert (queue_ptr s = Z.of_nat p) as Hp by (unfold p; lia).
  intros accepted.
  unfold _dequeue_and_enqueue, bind, get_self, py_mod, raise. fold b.
  rewrite Hsize.
  destruct (decide (Z.of_nat b = 0%Z)) as [Hb0|Hb0].
  { split; [done|]. intros (Hb & _). lia. }
  unfold ret at 1, py_assert.
  destruct (Z.eqb_spec (Z.of_nat C mod Z.of_nat b) 0) as [Hmod|Hmod].
  2:{ split; [done|]. intros (_ & [m Hm] & _).
      apply Hmod. rewrite Hm, Nat2Z.inj_mul. apply Z.mod_mul. lia. }
  assert (b | C) as Hdiv.
  { apply Z.mod_divide in Hmod as [m Hm]; [|done].
    exists (Z.to_nat m). nia. }
  cbv beta iota.
  unfold ret at 1, setitem_queue. rewrite HQ. unfold setitem_last.
  cbn [permute021 dim0 dim1 dim2 cells3]. fold b.
  rewrite HQ0, HQ1, HQ2, Hp, <- Nat2Z.inj_add, !slice_index_clamp.
  replace (p `min` C) with p by lia.
  destruct (broadcastable (dim0 keys) 2 && broadcastable (dim2 keys) D
            && broadcastable b ((p + b) `min` C - p)) eqn:Hcond.
  - rewrite decide_False by lia. unfold ret, modify.
    apply andb_prop in Hcond as [Hcond H2].
    apply andb_prop in Hcond as [H0 H1].
    apply broadcastable_spec in H0, H1, H2.
    unfold accepted. split_and!; [lia|done|done|done|lia].
  - split; [done|]. intros (_ & _ & H0 & H1 & Hfit).
    apply broadcastable_spec in H0, H1.
    assert (broadcastable b ((p + b) `min` C - p) = true) as H2.
    { apply broadcastable_spec. left. lia. }
    rewrite H0, H1, H2 in Hcond. done.
Qed.

(** X3.  With a queue of shape (2, D, C) and [0 <= ptr < C], keys of any
    shape (k0, b, kd): the enqueue returns exactly when [b] is not 0 and
    divides [C], [k0] is 2 or 1, [kd] is [D] or 1 (sizes that broadcast),
    and [ptr + b <= C]; and when it raises, [self] is as it was. *)
Theorem enqueue_returns_exactly_when s keys Q (D C : nat) :
  queue_contents s = Some Q → shape3 Q = (2, D, C) →
  queue_size (hparams s) = Z.of_nat C →
  (0 ≤ queue_ptr s < Z.of_nat C)%Z →
  ((∃ s', _dequeue_and_enqueue keys s = Returned tt s') ↔
     dim1 keys ≠ 0 ∧ (dim1 keys | C) ∧
     (dim0 keys = 2 ∨ dim0 keys = 1) ∧ (dim2 keys = D ∨ dim2 keys = 1) ∧
     (queue_ptr s + Z.of_nat (dim1 keys) ≤ Z.of_nat C)%Z) ∧
  (∀ e s', _dequeue_and_enqueue keys s = Raised e s' → s' = s).
Proof.
  intros HQ HshQ Hsize Hptr.
  pose proof (enqueue_cases s keys Q D C HQ HshQ Hsize Hptr) as Hcases.
  cbv zeta in Hcases.
  destruct (_dequeue_and_enqueue keys s) as [[] s1|e1 s1].
  - split; [|done]. split; [done|by eauto].
  - destruct Hcases as [-> Hrej].
    split; [|intros e s' Heq; congruence].
    split; [by intros [s' ?]|done].
Qed.

End facts.

Import Scenario.

Lemma q_state_queue_ok : @queue_ok QBackend.backend q_state 2 8 4.
Proof.
  exists q_queue0, 0.
  split_and!; [reflexivity|solve_wf3|reflexivity|reflexivity|lia| |
               reflexivity|lia].
  by exists 2.
Qed.


Lemma queue_holds_the_last_batches_witness :
  0 < 4 ∧ 0 < 2 ∧
  Forall (λ keys, wf3 keys ∧ shape3 keys = (2, 4, 2))
         [rows10; rows01; q_keys4] ∧
  ∃ Q' s',
    @enqueue_all QBackend.backend [rows10; rows01; q_keys4] q_state
      = Returned tt s' ∧
    queue_contents s' = Some Q' ∧ queue_ptr s' = 4%Z ∧
    get3 Q' 0 1 2 = Some (4 # 5)%Q ∧ get3 Q' 0 1 5 = Some 1%Q.
Proof.
  assert (Forall (λ keys : tensor3 Q, wf3 keys ∧ shape3 keys = (2, 4, 2))
                 [rows10; rows01; q_keys4]) as Hall.
  { repeat constructor; solve_wf3. }
  split_and!; [lia|lia|exact Hall|].
  destruct (@queue_holds_the_last_batches QBackend.backend q_state q_queue0
              [rows10; rows01; q_keys4] 2 4 2
              ltac:(lia) ltac:(lia) Hall eq_refl ltac:(solve_wf3)
              eq_refl eq_refl eq_refl)
    as (Q' & s' & Hrun & HQ' & Hptr & _ & _ & Hget & _).
  exists Q', s'. split_and!; [exact Hrun|exact HQ'|exact Hptr| |].
  - etrans;
      [exact (Hget 2 q_keys4 2 0 1 eq_refl ltac:(simpl; lia) ltac:(lia))|].
    reflexivity.
  - etrans;
      [exact (Hget 1 rows01 1 0 1 eq_refl ltac:(simpl; lia) ltac:(lia))|].
    reflexivity.
Defined.

Lemma enqueue_returns_exactly_when_witness :
  (0 ≤ queue_ptr q_state < Z.of_nat 8)%Z ∧
  (∃ s', @_dequeue_and_enqueue QBackend.backend q_keys4 q_state
           = Returned tt s') ∧
  ¬ (∃ s', @_dequeue_and_enqueue QBackend.backend q_keys3 q_state
             = Returned tt s').
Proof.
  assert (0 ≤ queue_ptr q_state < Z.of_nat 8)%Z as Hptr
    by (vm_compute; split; [discriminate | reflexivity]).
  split; [exact Hptr|]. split.
  - apply (@enqueue_returns_exactly_when QBackend.backend q_state q_keys4
             q_queue0 2 8 eq_refl eq_refl eq_refl Hptr).
    split_and!; [simpl; lia|by exists 2|by left|by left|vm_compute; discriminate].
  - intros Hret.
    apply (@enqueue_returns_exactly_when QBackend.backend q_state q_keys3
             q_queue0 2 8 eq_refl eq_refl eq_refl Hptr) in Hret
      as (_ & [k Hk] & _).
    simpl in Hk. lia.
Defined.

End QueueInvFacts.

(** ** The queue from construction through the steps *)

Module StepInvFacts.
Import SLIP_MOCOV2 Step TensorFacts QueueInv.

Lemma normalize3_dim0_wf {A : Type} (nv : list A → list A) (t : tensor3 A) :
  wf3 t → (∀ v, length (nv v) = length v) →
  wf3 (normalize3_dim0 nv t) ∧
  shape3 (normalize3_dim0 nv t) = shape3 t.
Proof.
  intros [HX Hall] Hnv. split; [|reflexivity].
  assert (Forall (λ m : list (list A), length m = dim1 t) (cells3 t)) as Hrows.
  { eapply Forall_impl; [exact Hall|]. by intros m [? _]. }
  assert (Forall (Forall (λ r : list A, length r = dim2 t)) (cells3 t))
    as Hcols.
  { eapply Forall_impl; [exact Hall|]. by intros m [_ ?]. }
  set (T1 := transpose (dim1 t) (cells3 t)).
  assert (Forall (λ col : list (list A), length col = dim0 t) T1) as HT1len.
  { rewrite <- HX. by apply transpose_wf. }
  assert (Forall (Forall (λ r : list A, length r = dim2 t)) T1) as HT1el
    by by apply transpose_Forall.
  set (G := map (transpose (dim0 t))
                (map (map nv) (map (transpose (dim2 t)) T1))).
  assert (Forall (λ g : list (list A), length g = dim0 t) G) as HGlen.
  { unfold G. apply Forall_fmap, Forall_fmap, Forall_fmap.
    apply Forall_lookup. intros i col Hcol. simpl.
    apply transpose_length. apply Forall_fmap.
    pose proof (Forall_lookup_1 _ _ _ _ HT1el Hcol) as Hel.
    pose proof (Forall_lookup_1 _ _ _ _ HT1len Hcol) as Hlen.
    eapply Forall_impl; [by apply transpose_wf|].
    intros r Hr; simpl. rewrite Hnv. congruence. }
  assert (Forall (Forall (λ r : list A, length r = dim2 t)) G) as HGel.
  { unfold G. apply Forall_fmap, Forall_fmap, Forall_fmap.
    apply Forall_lookup. intros i col Hcol. simpl.
    pose proof (Forall_lookup_1 _ _ _ _ HT1el Hcol) as Hel.
    pose proof (Forall_lookup_1 _ _ _ _ HT1len Hcol) as Hlen.
    assert (Forall (λ r : list A, length r = dim0 t)
                   (map nv (transpose (dim2 t) col))) as Hn.
    { apply Forall_fmap. eapply Forall_impl; [by apply transpose_wf|].
      intros r Hr; simpl. rewrite Hnv. congruence. }
    eapply Forall_impl; [exact (transpose_wf _ _ Hn)|].
    intros r Hr; simpl in *. rewrite Hr, length_map.
    by apply transpose_length. }
  assert (length G = dim1 t) as HG.
  { unfold G. rewrite !length_map. by apply transpose_length. }
  unfold wf3, normalize3_dim0. cbn [cells3 dim0 dim1 dim2]. fold T1 G.
  split; [by apply transpose_length|].
  apply Forall_lookup. intros i m Hm. split.
  - pose proof (transpose_wf _ _ HGlen) as Hw.
    rewrite <- HG. exact (Forall_lookup_1 _ _ _ _ Hw Hm).
  - pose proof (transpose_Forall _ _ _ HGlen HGel) as Hw.
    exact (Forall_lookup_1 _ _ _ _ Hw Hm).
Qed.

Section facts.
Context `{B : Backend}.
Implicit Types (s : state) (batch : list Img * list Img * TextEnc)
  (Q : tensor3 scalar).

(** X4.  The model [_build_model] constructs is ready for enqueues of any
    batch size that divides the configured capacity: the buffer has shape
    (2, mocov2_proj_output_dim, queue_size), the pointer is zero, and
    each momentum module starts as its online module. *)
Theorem build_model_queue_ok (hp : hparams_t) (n1 n2 n3 n4 n5 : Net)
    (noise : tensor3 scalar) (b : nat) :
  (∀ v, length (normalize_vec v) = length v) →
  wf3 noise →
  shape3 noise = (2, mocov2_proj_output_dim hp, Z.to_nat (queue_size hp)) →
  0 < b → (Z.of_nat b | queue_size hp)%Z → (0 < queue_size hp)%Z →
  let s := _build_model hp n1 n2 n3 n4 n5 noise in
  queue_ok s (mocov2_proj_output_dim hp) (Z.to_nat (queue_size hp)) b ∧
  queue_ptr s = 0%Z ∧
  img_backbone_ema s = img_backbone s ∧
  mocov2_projector_ema s = mocov2_projector s.
Proof.
  intros Hnv Hwf Hsh Hb [m Hm] Hsize s.
  destruct (normalize3_dim0_wf normalize_vec noise Hwf Hnv) as [Hwf' Hsh'].
  split_and!; [|done..].
  exists (normalize3_dim0 normalize_vec noise), 0.
  split_and!; [done|done|congruence|simpl; lia|done| |done|simpl; lia].
  exists (Z.to_nat m). nia.
Qed.

Lemma step_ready_of_queue_ok rnd s batch ks (D C b : nat) :
  queue_ok s D C b →
  keys rnd s batch = Some ks → wf3 ks → shape3 ks = (2, b, D) →
  ∃ Q, step_ready rnd s batch Q ks D C b.
Proof.
  intros (Q & k & HQ & HwfQ & HshQ & Hsize & Hb & [m HC] & Hptr & Hlt)
         Hks Hwfk Hshk.
  assert (k < m) as Hkm by nia.
  assert (k * b + b ≤ C) as Hfit by nia.
  exists Q. unfold step_ready.
  split_and!; [done..| |lia|lia|lia].
  exists (Z.of_nat m). lia.
Qed.

(** A step from a state in which the queue is in order: it returns, and
    the queue is in order again. *)
Lemma shared_forward_next rnd batch batch_idx mode s ks (D C b : nat) :
  queue_ok s D C b →
  keys rnd s batch = Some ks → wf3 ks → shape3 ks = (2, b, D) →
  ∃ Q ssl Q' s',
    queue_contents s = Some Q ∧
    shared_forward rnd batch batch_idx mode s =
      Returned (result (c_loss s batch) ssl (ssl_scale (hparams s))) s' ∧
    s' = set_queue_ptr ((queue_ptr s + Z.of_nat b) mod Z.of_nat C)%Z
           (set_heap (<[queue s := Q']>
                        (heap (before_enqueue rnd s batch Q)))
                     (before_enqueue rnd s batch Q)) ∧
    queue_contents s' = Some Q' ∧
    (∀ st d c,
       get3 Q' st d c =
         if decide (queue_ptr s ≤ Z.of_nat c
                    < queue_ptr s + Z.of_nat b)%Z
         then get3 ks st (c - Z.to_nat (queue_ptr s)) d
         else get3 Q st d c) ∧
    queue_ok s' D C b.
Proof.
  intros Hok Hks Hwfk Hshk.
  destruct (step_ready_of_queue_ok rnd s batch ks D C b Hok Hks Hwfk Hshk)
    as [Q Hready].
  destruct (StepFacts.shared_forward_returns rnd batch batch_idx mode
              s Q ks D C b Hready)
    as (ssl & Q' & s' & _ & Hrun & _ & Hs' & HQ' & HwfQ' & HshQ' & Hget).
  destruct Hok as (Q0 & k & HQ & _ & _ & Hsize & Hb & [m HC] & Hptr & Hlt).
  assert (Q0 = Q) as ->.
  { destruct Hready as (HQr & _). congruence. }
  exists Q, ssl, Q', s'. split_and!; [done..|].
  exists Q', ((k + 1) mod m).
  split_and!; [done|done|done| |done|by exists m| |].
  - rewrite Hs'. exact Hsize.
  - rewrite Hs'. cbn [queue_ptr set_queue_ptr]. rewrite Hptr.
    rewrite <- Nat2Z.inj_add, <- Nat2Z.inj_mod. f_equal.
    subst C. apply QueueInvFacts.next_slot.
  - subst C. apply Nat.mul_lt_mono_pos_r; [done|].
    apply Nat.mod_upper_bound. nia.
Qed.

(** X5.  A step keeps the queue ready for the next one: from a state in
    which the buffer has the configured shape and the pointer stands on
    a multiple of the batch size [b], below the capacity, a step whose
    stacked keys have shape (2, b, D) returns the three losses and
    leaves such a state.  The assertion of the enqueue can then never
    fail in a run of such steps. *)
Theorem shared_forward_keeps_queue_ok rnd batch batch_idx mode s ks
    (D C b : nat) :
  queue_ok s D C b →
  keys rnd s batch = Some ks → wf3 ks → shape3 ks = (2, b, D) →
  ∃ m s',
    shared_forward rnd batch batch_idx mode s = Returned m s' ∧
    dom m = ({["loss"; "clip_loss"; "ssl_loss"]} : gset string) ∧
    queue_ok s' D C b.
Proof.
  intros Hok Hks Hwfk Hshk.
  destruct (shared_forward_next rnd batch batch_idx mode s ks D C b
              Hok Hks Hwfk Hshk)
    as (Q & ssl & Q' & s' & _ & Hrun & _ & _ & _ & Hok').
  eexists _, s'. split_and!; [exact Hrun| |exact Hok'].
  apply StepFacts.result_lookups.
Qed.



(** X7.  The keys a step enqueues are negatives of the next step: after
    two steps in a row, the two views the second step passed to
    [mocov2_loss] show, at the columns the first step wrote, the keys
    of the first step, stream by stream; the enqueue of the second step
    does not reach them. *)
Theorem enqueued_keys_are_the_next_negatives
    rnd1 batch1 idx1 mode1 rnd2 batch2 idx2 mode2 s ks1 m1 s1 ks2
    (D C b : nat) :
  queue_ok s D C b →
  keys rnd1 s batch1 = Some ks1 → wf3 ks1 → shape3 ks1 = (2, b, D) →
  shared_forward rnd1 batch1 idx1 mode1 s = Returned m1 s1 →
  keys rnd2 s1 batch2 = Some ks2 → wf3 ks2 → shape3 ks2 = (2, b, D) →
  ∃ m2 s2 c1 c2 N1 N0,
    shared_forward rnd2 batch2 idx2 mode2 s1 = Returned m2 s2 ∧
    loss_calls s2 = loss_calls s1 ++ [c1; c2] ∧
    view_contents s2 (call_negatives c1) = Some N1 ∧
    view_contents s2 (call_negatives c2) = Some N0 ∧
    ∀ i d, i < b →
      get2 N1 d (Z.to_nat (queue_ptr s) + i) = get3 ks1 1 i d ∧
      get2 N0 d (Z.to_nat (queue_ptr s) + i) = get3 ks1 0 i d.
Proof.
  intros Hok Hks1 Hwf1 Hsh1 Hrun1 Hks2 Hwf2 Hsh2.
  destruct (shared_forward_next rnd1 batch1 idx1 mode1 s ks1 D C b
              Hok Hks1 Hwf1 Hsh1)
    as (Q & ssl1 & Q1 & s1' & HQ & Hrun1' & _ & HQ1 & Hget1 & Hok1).
  assert (s1' = s1) as -> by congruence.
  destruct (shared_forward_next rnd2 batch2 idx2 mode2 s1 ks2 D C b
              Hok1 Hks2 Hwf2 Hsh2)
    as (Q1' & ssl2 & Q2 & s2 & HQ1' & Hrun2 & Hs2 & _ & _ & _).
  assert (Q1' = Q1) as -> by congruence.
  destruct Hok1 as (Q1' & _ & HQ1'' & [Hlen1 _] & Hsh & _).
  assert (Q1' = Q1) as -> by congruence.
  assert (dim0 Q1 = 2) as Hd0 by (by injection Hsh).
  destruct (lookup_lt_is_Some_2 (cells3 Q1) 1) as [n1 Hn1]; [lia|].
  destruct (lookup_lt_is_Some_2 (cells3 Q1) 0) as [n0 Hn0]; [lia|].
  assert (queue s1 < length (heap s1)) as Hq
    by (by eapply lookup_lt_Some).
  assert (heap s2 !! length (heap s1) = Some Q1) as Hsnap.
  { rewrite Hs2. unfold before_enqueue. simpl.
    rewrite list_lookup_insert_ne by lia.
    by rewrite lookup_app_r, Nat.sub_diag by lia. }
  eexists _, s2, (loss_call1 rnd2 s1 batch2 (length (heap s1))),
    (loss_call2 rnd2 s1 batch2 (length (heap s1))),
    (T2 (dim1 Q1) (dim2 Q1) n1), (T2 (dim1 Q1) (dim2 Q1) n0).
  split_and!; [exact Hrun2| | | |].
  - rewrite Hs2. unfold before_enqueue. simpl. by rewrite <- app_assoc.
  - unfold view_contents. simpl. rewrite Hsnap. simpl.
    unfold select0. by rewrite Hn1.
  - unfold view_contents. simpl. rewrite Hsnap. simpl.
    unfold select0. by rewrite Hn0.
  - intros i d Hi.
    destruct Hok as (_ & k & _ & _ & _ & _ & _ & _ & Hptr & _).
    assert (∀ st n, cells3 Q1 !! st = Some n →
              get2 (T2 (dim1 Q1) (dim2 Q1) n) d (Z.to_nat (queue_ptr s) + i)
              = get3 ks1 st i d) as Hcol.
    { intros st n Hn.
      transitivity (get3 Q1 st d (Z.to_nat (queue_ptr s) + i)).
      - unfold get2, get3. simpl. by rewrite Hn.
      - rewrite Hget1, decide_True by lia. f_equal. lia. }
    split; by apply Hcol.
Qed.

End facts.

Import Scenario.

Lemma q_normalize_vec_length (v : list Q) :
  length (QBackend.q_normalize_vec v) = length v.
Proof. unfold QBackend.q_normalize_vec. apply length_map. Qed.

Lemma build_model_queue_ok_witness :
  wf3 q_noise ∧ 0 < 4 ∧ (Z.of_nat 4 | 8)%Z ∧
  @queue_ok QBackend.backend q_state 2 8 4 ∧ queue_ptr q_state = 0%Z.
Proof.
  assert (wf3 q_noise) as Hwf by solve_wf3.
  assert (Z.of_nat 4 | 8)%Z as Hdiv by (by exists 2%Z).
  split_and!; [exact Hwf|lia|exact Hdiv|..];
    apply (@build_model_queue_ok QBackend.backend q_hparams
             1%Q 1%Q 1%Q 1%Q 2%Q q_noise 4
             q_normalize_vec_length Hwf eq_refl ltac:(lia) Hdiv eq_refl).
Defined.

Lemma shared_forward_keeps_queue_ok_witness :
  wf3 q_step_keys ∧
  ∃ m s',
    @shared_forward QBackend.backend q_rnd q_batch 0 "train" q_state
      = Returned m s' ∧
    dom m = ({["loss"; "clip_loss"; "ssl_loss"]} : gset string) ∧
    @queue_ok QBackend.backend s' 2 8 4.
Proof.
  assert (wf3 q_step_keys) as Hwf by solve_wf3.
  split; [exact Hwf|].
  exact (@shared_forward_keeps_queue_ok QBackend.backend
           q_rnd q_batch 0%Z "train" q_state q_step_keys 2 8 4
           QueueInvFacts.q_state_queue_ok eq_refl Hwf eq_refl).
Defined.

Lemma enqueued_keys_are_the_next_negatives_witness :
  ∃ m1 s1 m2 s2 c1 c2 N1 N0,
    @shared_forward QBackend.backend q_rnd q_batch 0 "train" q_state
      = Returned m1 s1 ∧
    @shared_forward QBackend.backend q_rnd q_batch 1 "train" s1
      = Returned m2 s2 ∧
    loss_calls s2 = loss_calls s1 ++ [c1; c2] ∧
    view_contents s2 (call_negatives c1) = Some N1 ∧
    view_contents s2 (call_negatives c2) = Some N0 ∧
    get2 N1 0 1 = Some (4 # 5)%Q ∧ get2 N0 1 3 = Some 1%Q.
Proof.
  assert (wf3 q_step_keys) as Hwf by solve_wf3.
  destruct (@shared_forward_next QBackend.backend q_rnd q_batch 0%Z "train"
              q_state q_step_keys 2 8 4
              QueueInvFacts.q_state_queue_ok eq_refl Hwf eq_refl)
    as (Q & ssl & Q1 & s1 & _ & Hrun1 & Hs1 & _).
  assert (@keys QBackend.backend q_rnd s1 q_batch = Some q_step_keys)
    as Hks2 by (rewrite Hs1; reflexivity).
  destruct (@enqueued_keys_are_the_next_negatives QBackend.backend
              q_rnd q_batch 0%Z "train" q_rnd q_batch 1%Z "train"
              q_state q_step_keys _ s1 q_step_keys 2 8 4
              QueueInvFacts.q_state_queue_ok eq_refl Hwf eq_refl
              Hrun1 Hks2 Hwf eq_refl)
    as (m2 & s2 & c1 & c2 & N1 & N0 & Hrun2 & Hcalls & HN1 & HN0 & Hget).
  eexists _, s1, m2, s2, c1, c2, N1, N0.
  split_and!; [exact Hrun1|exact Hrun2|exact Hcalls|exact HN1|exact HN0| |].
  - etrans; [exact (proj1 (Hget 1 0 ltac:(lia)))|reflexivity].
  - etrans; [exact (proj2 (Hget 3 1 ltac:(lia)))|reflexivity].
Defined.


End StepInvFacts.

(** ** The training and validation steps *)

Module LightningFacts.
Import Lightning Step TensorFacts QueueInv.

Section facts.
Context `{B : Backend}.

(** The mapping a SLIP+MoCo-v2 step returns, when it returns. *)
Lemma mocov2_returned_mapping rnd batch batch_idx mode
    (s : SLIP_MOCOV2.state) m s' :
  SLIP_MOCOV2.shared_forward rnd batch batch_idx mode s = Returned m s' →
  ∃ c ssl, m = result c ssl (SLIP_MOCOV2.ssl_scale (SLIP_MOCOV2.hparams s)).
Proof.
  destruct batch as [[imgs1 imgs2] text].
  unfold SLIP_MOCOV2.shared_forward, bind, get_self,
    SLIP_MOCOV2.ema_img_backbone, SLIP_MOCOV2.ema_mocov2_projector, modify.
  destruct (_batch_shuffle_ddp rnd.1 (torch_stack imgs1))
    as [images1_k idx1].
  destruct (_batch_shuffle_ddp rnd.2 (torch_stack imgs2))
    as [images2_k idx2].
  destruct (SLIP_MOCOV2.clone_detach _ _) as [snap s1|]; [|done].
  destruct (SLIP_MOCOV2.getitem0 _ _ _) as [v1 s2|]; [|done].
  destruct (SLIP_MOCOV2.call_mocov2_loss _ _ _ _ _) as [l1 s3|]; [|done].
  destruct (SLIP_MOCOV2.getitem0 _ _ _) as [v0 s4|]; [|done].
  destruct (SLIP_MOCOV2.call_mocov2_loss _ _ _ _ _) as [l0 s5|]; [|done].
  destruct (torch_call _ _) as [ks s6|]; [|done].
  destruct (SLIP_MOCOV2._dequeue_and_enqueue _ _) as [[] s7|]; [|done].
  unfold ret. intros [= <- <-]. eexists _, _. reflexivity.
Qed.

(** The three subscripts and the three calls of [self.log] on a mapping
    with the three losses. *)
Lemma read_and_log_three {S X : Type} (c ssl scale : scalar)
    (n1 n2 n3 : string) (e1 o1 : bool) (k : scalar → X) (s : S) logged :
  lbind (subscript (result c ssl scale) "loss") (λ loss,
    lbind (subscript (result c ssl scale) "clip_loss") (λ clip_loss,
      lbind (subscript (result c ssl scale) "ssl_loss") (λ ssl_loss,
        lbind (log n1 loss e1 o1 true) (λ _,
          lbind (log n2 clip_loss false true true) (λ _,
            lbind (log n3 ssl_loss false true true) (λ _,
              lret (k loss))))))) s logged
  = StepReturned (k (radd c (rmul scale ssl))) s
      (logged ++ [LogCall n1 (radd c (rmul scale ssl)) e1 o1 true;
                  LogCall n2 c false true true;
                  LogCall n3 ssl false true true]).
Proof.
  destruct (StepFacts.result_lookups c ssl scale) as (H1 & H2 & H3 & _).
  unfold lbind, subscript, log, lret. rewrite H1, H2, H3.
  by rewrite <- !app_assoc.
Qed.

(** X8.  [training_step] of SLIP+MoCo-v2 ends as [shared_forward] does.
    When that returns a mapping, the step returns its "loss" entry and
    has called [self.log] three times, for train_loss, train_clip_loss
    and train_ssl_loss in this order, each per step and not per epoch,
    with the three entries of the mapping; no subscript raises.  When
    [shared_forward] raises, the step raises the same exception in the
    same state and has logged nothing. *)
Theorem mocov2_training_step_outcome rnd batch batch_idx
    (s : SLIP_MOCOV2.state) logged :
  match SLIP_MOCOV2.shared_forward rnd batch batch_idx "train" s with
  | Returned m s' =>
      ∃ loss c ssl,
        m !! "loss" = Some loss ∧ m !! "clip_loss" = Some c ∧
        m !! "ssl_loss" = Some ssl ∧
        SLIP_MOCOV2_steps.training_step rnd batch batch_idx s logged =
          StepReturned loss s'
            (logged ++ [LogCall "train_loss" loss false true true;
                        LogCall "train_clip_loss" c false true true;
                        LogCall "train_ssl_loss" ssl false true true])
  | Raised e s' =>
      SLIP_MOCOV2_steps.training_step rnd batch batch_idx s logged =
        StepRaised (Propagated e) s' logged
  end.
Proof.
  destruct (SLIP_MOCOV2.shared_forward rnd batch batch_idx "train" s)
    as [m s'|e s'] eqn:Hrun;
    unfold SLIP_MOCOV2_steps.training_step; unfold lbind at 1, call;
    rewrite Hrun; [|done].
  apply mocov2_returned_mapping in Hrun as (c & ssl & ->).
  destruct (StepFacts.result_lookups c ssl
              (SLIP_MOCOV2.ssl_scale (SLIP_MOCOV2.hparams s)))
    as (H1 & H2 & H3 & _).
  eexists _, c, ssl. split_and!; [done..|].
  apply (read_and_log_three c ssl _ _ _ _ false true (λ loss, loss)).
Qed.

(** X9.  [validation_step] of SLIP+MoCo-v2 changes the model as
    [training_step] does: from a state whose queue is in order, with
    stacked keys of shape (2, b, D), it returns [None], leaves [self] in
    the state the training step on the same batch leaves it in, with
    the keys of the validation batch written into the queue at the
    pointer, the pointer advanced by [b] and both momentum modules
    updated; it logs val_loss per epoch and the two other losses per
    step. *)
Theorem mocov2_validation_step_updates_the_model rnd batch batch_idx
    (s : SLIP_MOCOV2.state) ks (D C b : nat) logged :
  queue_ok s D C b →
  keys rnd s batch = Some ks → wf3 ks → shape3 ks = (2, b, D) →
  ∃ s' Q' loss c ssl,
    SLIP_MOCOV2_steps.validation_step rnd batch batch_idx s logged =
      StepReturned tt s'
        (logged ++ [LogCall "val_loss" loss true false true;
                    LogCall "val_clip_loss" c false true true;
                    LogCall "val_ssl_loss" ssl false true true]) ∧
    step_state
      (SLIP_MOCOV2_steps.training_step rnd batch batch_idx s logged) = s' ∧
    SLIP_MOCOV2.queue_contents s' = Some Q' ∧
    SLIP_MOCOV2.queue_ptr s' =
      ((SLIP_MOCOV2.queue_ptr s + Z.of_nat b) mod Z.of_nat C)%Z ∧
    (∀ st i d, i < b →
       get3 Q' st d (Z.to_nat (SLIP_MOCOV2.queue_ptr s) + i)
       = get3 ks st i d) ∧
    SLIP_MOCOV2.img_backbone_ema s' =
      ema (SLIP_MOCOV2.img_backbone s) (SLIP_MOCOV2.img_backbone_ema s)
          (SLIP_MOCOV2.ema_decay (SLIP_MOCOV2.hparams s)) ∧
    SLIP_MOCOV2.mocov2_projector_ema s' =
      ema (SLIP_MOCOV2.mocov2_projector s)
          (SLIP_MOCOV2.mocov2_projector_ema s)
          (SLIP_MOCOV2.ema_decay (SLIP_MOCOV2.hparams s)).
Proof.
  intros Hok Hks Hwfk Hshk.
  destruct (StepInvFacts.shared_forward_next rnd batch batch_idx "val"
              s ks D C b Hok Hks Hwfk Hshk)
    as (Q & ssl & Q' & s' & HQ & Hrun & Hs' & HQ' & Hget & _).
  assert (SLIP_MOCOV2.shared_forward rnd batch batch_idx "train" s
          = SLIP_MOCOV2.shared_forward rnd batch batch_idx "val" s)
    as Hmode by (by destruct batch as [[? ?] ?]).
  destruct Hok as (_ & k & _ & _ & _ & _ & _ & _ & Hptr & _).
  exists s', Q', (radd (c_loss s batch)
                    (rmul (SLIP_MOCOV2.ssl_scale (SLIP_MOCOV2.hparams s))
                          ssl)),
    (c_loss s batch), ssl.
  split_and!.
  - unfold SLIP_MOCOV2_steps.validation_step. unfold lbind at 1, call.
    rewrite Hrun.
    apply (read_and_log_three _ ssl _ _ _ _ true false (λ _, tt)).
  - unfold SLIP_MOCOV2_steps.training_step. unfold lbind at 1, call.
    rewrite Hmode, Hrun.
    by rewrite (read_and_log_three _ ssl _ _ _ _ false true (λ loss, loss)).
  - exact HQ'.
  - by rewrite Hs'.
  - intros st i d Hi. rewrite Hget, decide_True by lia. f_equal. lia.
  - by rewrite Hs'.
  - by rewrite Hs'.
Qed.

(** [validation_step] of SLIP+MoCo-v2, as [shared_forward] ends. *)
Lemma mocov2_validation_step_outcome rnd batch batch_idx
    (s : SLIP_MOCOV2.state) logged :
  match SLIP_MOCOV2.shared_forward rnd batch batch_idx "val" s with
  | Returned m s' =>
      ∃ loss c ssl,
        SLIP_MOCOV2_steps.validation_step rnd batch batch_idx s logged =
          StepReturned tt s'
            (logged ++ [LogCall "val_loss" loss true false true;
                        LogCall "val_clip_loss" c false true true;
                        LogCall "val_ssl_loss" ssl false true true])
  | Raised e s' =>
      SLIP_MOCOV2_steps.validation_step rnd batch batch_idx s logged =
        StepRaised (Propagated e) s' logged
  end.
Proof.
  destruct (SLIP_MOCOV2.shared_forward rnd batch batch_idx "val" s)
    as [m s'|e s'] eqn:Hrun;
    unfold SLIP_MOCOV2_steps.validation_step; unfold lbind at 1, call;
    rewrite Hrun; [|done].
  apply mocov2_returned_mapping in Hrun as (c & ssl & ->).
  eexists _, c, ssl.
  apply (read_and_log_three c ssl _ _ _ _ true false (λ _, tt)).
Qed.



End facts.

(** X12.  The metric the callbacks of [main] watch is logged by every
    validation step: for each of the two monitors, a [validation_step]
    that returns, of any of the three methods, has logged per epoch the
    monitored name and nothing else. *)
Theorem monitored_metric_is_logged_by_validation (mon : Main.monitor) :
  mon ∈ Main.monitors →
  (∀ (B : Backend) rnd batch batch_idx (s s' : SLIP_MOCOV2.state) logged,
     SLIP_MOCOV2_steps.validation_step rnd batch batch_idx s []
       = StepReturned tt s' logged →
     epoch_metrics logged = [Main.monitored mon]) ∧
  (∀ (B : Backend) views batch_idx (s : SLIP_SIMCLR.state),
     epoch_metrics
       (step_logged (SLIP_SIMCLR_steps.validation_step views batch_idx s []))
     = [Main.monitored mon]) ∧
  (∀ (B : Backend) batch batch_idx (s : VICREG.state),
     epoch_metrics
       (step_logged (VICREG_steps.validation_step batch batch_idx s []))
     = [Main.monitored mon]).
Proof.
  intros Hmon.
  assert (Main.monitored mon = "val_loss") as ->.
  { unfold Main.monitors in Hmon.
    apply elem_of_cons in Hmon as [->|Hmon]; [done|].
    apply list_elem_of_singleton in Hmon as ->. done. }
  split_and!.
  - intros B rnd batch batch_idx s s' logged Hrun.
    pose proof (mocov2_validation_step_outcome rnd batch batch_idx s [])
      as Hcases.
    destruct (SLIP_MOCOV2.shared_forward rnd batch batch_idx "val" s)
      as [m s1|e s1].
    + destruct Hcases as (loss & c & ssl & Hval).
      rewrite Hval in Hrun. injection Hrun as _ <-. reflexivity.
    + rewrite Hcases in Hrun. discriminate.
  - intros B views batch_idx s.
    destruct (StepFacts.simclr_shared_forward views batch_idx "val" s)
      as (c & ssl & Hrun).
    unfold SLIP_SIMCLR_steps.validation_step. unfold lbind at 1, call.
    rewrite Hrun.
    by rewrite (read_and_log_three c ssl _ _ _ _ true false (λ _, tt)).
  - intros B [imgs1 imgs2] batch_idx s.
    unfold VICREG_steps.validation_step, VICREG.shared_forward, lbind, call,
      bind, get_self, ret, subscript, log, lret.
    by rewrite lookup_singleton_eq.
Qed.

Import Scenario.

Lemma mocov2_validation_step_updates_the_model_witness :
  wf3 q_step_keys ∧
  ∃ s' Q' loss c ssl,
    @SLIP_MOCOV2_steps.validation_step QBackend.backend
        q_rnd q_batch 0%Z q_state [] =
      StepReturned tt s'
        [@LogCall QBackend.backend "val_loss" loss true false true;
         @LogCall QBackend.backend "val_clip_loss" c false true true;
         @LogCall QBackend.backend "val_ssl_loss" ssl false true true] ∧
    SLIP_MOCOV2.queue_contents s' = Some Q' ∧
    SLIP_MOCOV2.queue_ptr s' = 4%Z ∧
    get3 Q' 0 1 1 = Some (12 # 13)%Q.
Proof.
  assert (wf3 q_step_keys) as Hwf by solve_wf3.
  split; [exact Hwf|].
  destruct (@mocov2_validation_step_updates_the_model QBackend.backend
              q_rnd q_batch 0%Z q_state q_step_keys 2 8 4 []
              QueueInvFacts.q_state_queue_ok eq_refl Hwf eq_refl)
    as (s' & Q' & loss & c & ssl & Hrun & _ & HQ' & Hptr & Hget & _).
  exists s', Q', loss, c, ssl.
  split_and!; [exact Hrun|exact HQ'|exact Hptr|].
  etrans; [exact (Hget 0 1 1 ltac:(lia))|reflexivity].
Defined.

Lemma monitored_metric_is_logged_by_validation_witness :
  Main.Monitor "EarlyStopping" "val_loss" "min" ∈ Main.monitors ∧
  (∃ s' logged,
     @SLIP_MOCOV2_steps.validation_step QBackend.backend
         q_rnd q_batch 0%Z q_state [] = StepReturned tt s' logged ∧
     @epoch_metrics QBackend.backend logged = ["val_loss"]) ∧
  @epoch_metrics QBackend.backend
    (step_logged
       (@VICREG_steps.validation_step QBackend.backend
          q_vicreg_batch 0%Z q_vicreg_state []))
  = ["val_loss"].
Proof.
  assert (Main.Monitor "EarlyStopping" "val_loss" "min" ∈ Main.monitors)
    as Hmon by (unfold Main.monitors; set_solver).
  destruct (monitored_metric_is_logged_by_validation _ Hmon)
    as (Hmoco & _ & Hvicreg).
  split_and!; [exact Hmon| |].
  - assert (wf3 q_step_keys) as Hwf by solve_wf3.
    destruct (@StepInvFacts.shared_forward_next QBackend.backend
                q_rnd q_batch 0%Z "val" q_state q_step_keys 2 8 4
                QueueInvFacts.q_state_queue_ok eq_refl Hwf eq_refl)
      as (Q & ssl & Q' & s' & _ & Hrun & _).
    pose proof (@mocov2_validation_step_outcome QBackend.backend
                  q_rnd q_batch 0%Z q_state []) as Hcases.
    rewrite Hrun in Hcases. destruct Hcases as (loss & c & ssl' & Hval).
    eexists s', _. split; [exact Hval|].
    exact (Hmoco QBackend.backend _ _ _ _ _ _ Hval).
  - exact (Hvicreg QBackend.backend q_vicreg_batch 0%Z q_vicreg_state).
Defined.

End LightningFacts.

(** ** The collate function *)

Module CollateFacts.
Import Collate.
Section facts.
Context `{B : Backend} {Text : Type}.
Variable batch_encode_plus : list Text → Z → TextEnc.

(** X13.  [collate_fn_batch_encoding] keeps the samples aligned: for a
    batch with at least one sample it returns the first views, the
    second views and the encoding of the reports, each in the order of
    the batch, so that zipping views and reports again gives the batch
    back; for a batch without samples the unpacking raises
    [ValueError]. *)
Theorem collate_keeps_samples_aligned (max_length : Z)
    (batch : list (Img * Img * Text)) :
  match collate_fn_batch_encoding batch_encode_plus max_length batch with
  | inl ValueError => batch = []
  | inr (images1, images2, text_encodings) =>
      batch ≠ [] ∧
      length images1 = length batch ∧ length images2 = length batch ∧
      ∃ texts,
        text_encodings = batch_encode_plus texts max_length ∧
        zip (zip images1 images2) texts = batch ∧
        ∀ i sample, batch !! i = Some sample →
          images1 !! i = Some sample.1.1 ∧
          images2 !! i = Some sample.1.2 ∧
          texts !! i = Some sample.2
  end.
Proof.
  assert (∀ l : list (Img * Img * Text),
            zip (zip (l.*1.*1) (l.*1.*2)) (l.*2) = l) as Hzip.
  { induction l as [|[[x y] t] l IH]; [done|].
    rewrite !fmap_cons. cbn [zip_with fst snd]. f_equal. exact IH. }
  unfold collate_fn_batch_encoding, zip_star.
  destruct batch as [|sample0 rest]; [done|].
  set (samples := sample0 :: rest).
  split_and!; [done|by rewrite !length_fmap..|].
  exists (samples.*2). split_and!; [done|apply Hzip|].
  intros i sample Hi. by rewrite !list_lookup_fmap, Hi.
Qed.

End facts.

Lemma collate_keeps_samples_aligned_witness :
  let tokenizer := λ (texts : list string) (max_length : Z),
                     T2 (length texts) (Z.to_nat max_length) [] in
  ∃ images1 images2 text_encodings,
    @collate_fn_batch_encoding QBackend.backend string tokenizer 128
       [([1; 2], [3; 4], "no acute findings");
        ([5; 6], [7; 8], "small effusion")]%Q
    = inr (images1, images2, text_encodings) ∧
    images1 !! 1 = Some [5; 6]%Q ∧ images2 !! 1 = Some [7; 8]%Q ∧
    text_encodings = T2 2 128 [].
Proof.
  intros tokenizer.
  pose proof (@collate_keeps_samples_aligned QBackend.backend string
                tokenizer 128%Z
                [([1; 2], [3; 4], "no acute findings");
                 ([5; 6], [7; 8], "small effusion")]%Q) as Hcollate.
  destruct (collate_fn_batch_encoding _ _ _)
    as [[]|[[images1 images2] text_encodings]] eqn:Hrun;
    [discriminate Hcollate|].
  destruct Hcollate as (_ & _ & _ & texts & -> & _ & Hget).
  destruct (Hget 1 _ eq_refl) as (H1 & H2 & _).
  exists images1, images2, (tokenizer texts 128%Z).
  split_and!; [reflexivity|exact H1|exact H2|].
  injection Hrun as _ _ Henc. unfold tokenizer. by rewrite <- Henc.
Defined.

End CollateFacts.

(** ** The command-line options *)

Module ArgparseFacts.
Import Argparse Main.

Lemma add_arguments_raised (l : list argument) (o : string) :
  foldl (λ r a,
           r >>> add_argument (option_string a) (type a) (arg_action a)
                              (default a) (choices a))
        (ArgumentError o) l = ArgumentError o.
Proof. induction l as [|a l IH]; [done|]. simpl. exact IH. Qed.

Lemma argument_eta (a : argument) :
  Argument (option_string a) (type a) (arg_action a) (default a) (choices a)
  = a.
Proof. by destruct a. Qed.

Lemma add_argument_unfold o t ac d c (p : parser) :
  add_argument o t ac d c p =
    if decide (o ∈ option_strings p) then ArgumentError o
    else Ok (p ++ [Argument o t ac d c]).
Proof. reflexivity. Qed.

(** A run of [add_argument] calls over distinct options goes through
    exactly when none of them is declared yet, and then appends them in
    order; otherwise it raises for the first one that is. *)
Lemma add_arguments_spec (l : list argument) (p : parser) :
  NoDup (option_strings l) →
  match add_arguments l p with
  | Ok p' => p' = p ++ l ∧ option_strings p ## option_strings l
  | ArgumentError o =>
      o ∈ option_strings p ∧
      ∃ l1 a l2, l = l1 ++ a :: l2 ∧ option_string a = o ∧
                 option_strings p ## option_strings l1
  end.
Proof.
  unfold add_arguments. revert p.
  induction l as [|a l IH]; intros p Hnd.
  - cbn [foldl]. split; [by rewrite app_nil_r|].
    unfold option_strings. rewrite fmap_nil. intros x _ Hx.
    by apply elem_of_nil in Hx.
  - unfold option_strings in Hnd. rewrite fmap_cons in Hnd.
    apply NoDup_cons in Hnd as [Ha Hnd].
    fold (option_strings l) in Ha, Hnd.
    cbn [foldl].
    match goal with
    | |- context [foldl ?f (Ok p >>> ?g) l] =>
        change (foldl f (Ok p >>> g) l) with (foldl f (g p) l)
    end.
    rewrite add_argument_unfold, argument_eta.
    destruct (decide (option_string a ∈ option_strings p)) as [Hin|Hin].
    + rewrite add_arguments_raised. split; [done|].
      exists [], a, l. split_and!; [done|done|].
      unfold option_strings. rewrite fmap_nil. intros x _ Hx.
      by apply elem_of_nil in Hx.
    + specialize (IH (p ++ [a]) Hnd).
      match type of IH with
      | match ?t with _ => _ end =>
          match goal with
          | |- context [foldl ?f (Ok (p ++ [a])) l] =>
              change (foldl f (Ok (p ++ [a])) l) with t
          end;
          destruct t as [p'|o]
      end.
      * destruct IH as [-> Hdisj]. split; [by rewrite <- app_assoc|].
        unfold option_strings in *.
        rewrite fmap_app, fmap_cons, fmap_nil in Hdisj.
        rewrite fmap_cons. intros x Hx Hx'.
        apply elem_of_cons in Hx' as [->|Hx']; [done|].
        apply (Hdisj x); [|done]. apply elem_of_app. by left.
      * destruct IH as (Ho & l1 & a' & l2 & -> & <- & Hdisj).
        unfold option_strings in *.
        rewrite fmap_app, fmap_cons, fmap_nil in Ho, Hdisj.
        rewrite fmap_app, fmap_cons in Ha.
        split.
        { apply elem_of_app in Ho as [Ho|Ho]; [done|].
          apply list_elem_of_singleton in Ho. exfalso. apply Ha.
          rewrite Ho. apply elem_of_app. right. apply elem_of_cons.
          by left. }
        exists (a :: l1), a', l2. split_and!; [done|done|].
        rewrite fmap_cons. intros x Hx Hx'.
        apply elem_of_cons in Hx' as [->|Hx']; [done|].
        apply (Hdisj x); [|done]. apply elem_of_app. by left.
Qed.

Lemma methods_add_arguments (m : method) (p : parser) :
  METHODS m p = add_arguments (declared m) p.
Proof. destruct m; reflexivity. Qed.

Lemma declared_NoDup (m : method) : NoDup (option_strings (declared m)).
Proof.
  destruct m; apply (bool_decide_unpack _); vm_compute; exact I.
Qed.

(** X14.  [add_model_specific_args] of each method extends any parser
    that declares none of the method's options, with these options in
    the order of the file and nothing else; on a parser that already
    declares one of them it raises [ArgumentError] for the first such
    option, so adding the options of a method twice always fails. *)
Theorem add_model_specific_args_extends (m : method) (p : parser) :
  match METHODS m p with
  | Ok p' => p' = p ++ declared m ∧
             option_strings p ## option_strings (declared m)
  | ArgumentError o =>
      o ∈ option_strings p ∧ o ∈ option_strings (declared m)
  end ∧
  (∀ p', METHODS m p = Ok p' →
         METHODS m p' = ArgumentError "--img_embedding_dim").
Proof.
  pose proof (add_arguments_spec (declared m) p (declared_NoDup m)) as Hspec.
  rewrite <- methods_add_arguments in Hspec.
  split.
  - destruct (METHODS m p) as [p'|o]; [done|].
    destruct Hspec as (Ho & l1 & a & l2 & Hl & <- & _).
    split; [done|]. rewrite Hl. unfold option_strings.
    rewrite fmap_app, fmap_cons. apply elem_of_app. right.
    apply elem_of_cons. by left.
  - intros p' Hrun. rewrite Hrun in Hspec. destruct Hspec as [-> _].
    assert (∃ a l, declared m = a :: l ∧
                   option_string a = "--img_embedding_dim")
      as (a & l & Hl & Ha)
      by (destruct m; eexists _, _; split; reflexivity).
    rewrite methods_add_arguments, Hl. unfold add_arguments. simpl.
    unfold add_argument at 2. rewrite Ha, decide_True.
    + apply add_arguments_raised.
    + unfold option_strings. rewrite fmap_app, fmap_cons, Ha.
      apply elem_of_app. right. apply elem_of_cons. by left.
Qed.

Lemma add_model_specific_args_extends_witness :
  ∃ p',
    METHODS vicreg [] = Ok p' ∧ length p' = 9 ∧
    METHODS vicreg p' = ArgumentError "--img_embedding_dim".
Proof.
  destruct (add_model_specific_args_extends vicreg []) as [_ Htwice].
  eexists. split_and!; [reflexivity|reflexivity|].
  apply Htwice. reflexivity.
Defined.

Lemma defaults_checked (p : parser) (l : list string) :
  forallb (λ h, match get_default p h with
                | Some VNone | None => false
                | Some _ => true
                end) l = true →
  ∀ h, h ∈ l → ∃ v, get_default p h = Some v ∧ v ≠ VNone.
Proof.
  intros Hall h Hh. rewrite forallb_forall in Hall.
  apply list_elem_of_In in Hh. specialize (Hall h Hh).
  destruct (get_default p h) as [[]|]; try done; by eexists.
Qed.

(** X15.  Whichever of the three methods is chosen, [parse_args_pretrain]
    builds its parser without an [ArgumentError]: "--method", then the
    options of the method, then 33 shared options, no option string
    twice.  Every hyper-parameter the file of the method reads from
    [self.hparams] is declared there, with a default other than
    [None]. *)
Theorem parse_args_pretrain_declares_what_is_read (m : method) :
  ∃ p shared,
    parse_args_pretrain m = Ok p ∧
    p = Argument "--method" (Some str) store VNone None
          :: declared m ++ shared ∧
    length shared = 33 ∧
    NoDup (option_strings p) ∧
    ∀ h, h ∈ hparams_read m →
         ∃ v, get_default p h = Some v ∧ v ≠ VNone.
Proof.
  destruct m.
  all: eexists _, _; split; [reflexivity|].
  all: split; [reflexivity|]; split; [reflexivity|]; split.
  all: try (apply (bool_decide_unpack _); vm_compute; exact I).
  all: apply defaults_checked; vm_compute; reflexivity.
Qed.

Lemma types_checked (p : parser) :
  forallb (λ a,
    Bool.eqb (negb (has_type a (default_value a)))
             ((option_string a =? "--method")%string
              || (option_string a =? "--dropout")%string)
    && implb (option_string a =? "--method")%string
             match default_value a with VNone => true | _ => false end
    && implb (option_string a =? "--dropout")%string
             match type a, default_value a with
             | Some int, VFloat (1 # 10) => true
             | _, _ => false
             end) p = true →
  ∀ a, a ∈ p →
    (has_type a (default_value a) = false ↔
       option_string a = "--method" ∨ option_string a = "--dropout") ∧
    (option_string a = "--method" → default_value a = VNone) ∧
    (option_string a = "--dropout" →
       type a = Some int ∧ default_value a = VFloat (1 # 10)).
Proof.
  intros Hall a Ha. rewrite forallb_forall in Hall.
  apply list_elem_of_In in Ha. specialize (Hall a Ha). clear Ha.
  apply andb_prop in Hall as [Hall Hdrop].
  apply andb_prop in Hall as [Htyped Hmethod].
  apply Bool.eqb_prop in Htyped.
  destruct (String.eqb_spec (option_string a) "--method") as [Hm|Hm];
    destruct (String.eqb_spec (option_string a) "--dropout") as [Hd|Hd];
    simpl in Htyped, Hmethod, Hdrop.
  - congruence.
  - apply negb_true_iff in Htyped.
    split_and!; [by split; [left|]| |done].
    intros _. by destruct (default_value a).
  - apply negb_true_iff in Htyped.
    split_and!; [by split; [right|]|done|].
    intros _. destruct (type a) as [[]|]; try done.
    destruct (default_value a) as [| | |[[|[]|] []]|]; try done.
    all: repeat match goal with
                | H : match ?x with _ => _ end = true |- _ =>
                    destruct x; try done
                end.
  - apply negb_false_iff in Htyped.
    split_and!; [|done|done].
    rewrite Htyped. split; [done|]. by intros [?|?].
Qed.

(** X16.  In the parser of every method, the default of each option is
    a value of the type the option converts command-line strings to,
    but for two options: "--method", which has no default, and
    "--dropout", declared with [type=int] and the default 0.1. *)
Theorem dropout_default_is_not_of_its_type (m : method) (p : parser)
    (a : argument) :
  parse_args_pretrain m = Ok p → a ∈ p →
  (has_type a (default_value a) = false ↔
     option_string a = "--method" ∨ option_string a = "--dropout") ∧
  (option_string a = "--method" → default_value a = VNone) ∧
  (option_string a = "--dropout" →
     type a = Some int ∧ default_value a = VFloat (1 # 10)).
Proof.
  intros Hrun. apply types_checked.
  destruct m; vm_compute in Hrun; injection Hrun as <-;
    vm_compute; reflexivity.
Qed.

Lemma dropout_default_is_not_of_its_type_witness :
  ∃ p a,
    parse_args_pretrain vicreg = Ok p ∧ a ∈ p ∧
    option_string a = "--dropout" ∧
    has_type a (default_value a) = false ∧
    type a = Some int ∧ default_value a = VFloat (1 # 10).
Proof.
  pose (a := Argument "--dropout" (Some int) store (VFloat (1 # 10)) None).
  assert (∃ p, parse_args_pretrain vicreg = Ok p ∧ a ∈ p)
    as (p & Hrun & Hin).
  { eexists. split; [reflexivity|].
    apply elem_of_app. left. apply elem_of_app. left.
    unfold METHODS, VICREG_args.add_model_specific_args. cbn.
    apply elem_of_cons. right. apply elem_of_cons. right.
    apply elem_of_cons. by left. }
  destruct (dropout_default_is_not_of_its_type vicreg p a Hrun Hin)
    as (Hiff & _ & Hdrop).
  exists p, a. split_and!; [exact Hrun|exact Hin|reflexivity| | |].
  - apply Hiff. by right.
  - apply Hdrop. reflexivity.
  - apply Hdrop. reflexivity.
Defined.

End ArgparseFacts.

(** ** The default queue size *)

Module DefaultsFacts.
Import SLIP_MOCOV2.

Lemma divisors_of_a_power_of_two (b n : nat) :
  b ≠ 0 ∧ (b | 2 ^ n) ↔ ∃ k, k ≤ n ∧ b = 2 ^ k.
Proof.
  split.
  - intros [Hb [q Hq]].
    destruct (Zpow_facts.Zdivide_power_2 (Z.of_nat b) 2 (Z.of_nat n))
      as [m Hm]; [lia|lia|apply Znumtheory.prime_alt, Z.prime_2| |].
    { exists (Z.of_nat q). rewrite <- Nat2Z.inj_mul, <- Hq.
      by rewrite Nat2Z.inj_pow. }
    assert (0 ≤ m)%Z as Hm0.
    { destruct (Z.lt_ge_cases m 0) as [Hneg|]; [|done].
      rewrite Z.pow_neg_r in Hm by done. lia. }
    assert (b = 2 ^ Z.to_nat m) as Hbm.
    { apply Nat2Z.inj. rewrite Nat2Z.inj_pow, Z2Nat.id by done. exact Hm. }
    exists (Z.to_nat m). split; [|done].
    destruct (Nat.le_gt_cases (Z.to_nat m) n) as [|Hgt]; [done|].
    exfalso.
    assert (2 ^ n < 2 ^ Z.to_nat m) as Hlt
      by (apply Nat.pow_lt_mono_r; lia).
    assert (0 < 2 ^ n) as Hpos by (apply Nat.neq_0_lt_0, Nat.pow_nonzero; lia).
    destruct q as [|q]; [lia|]. nia.
  - intros (k & Hk & ->). split.
    + apply Nat.pow_nonzero. lia.
    + exists (2 ^ (n - k)). rewrite <- Nat.pow_add_r. f_equal. lia.
Qed.

(** X17.  With the queue size [add_model_specific_args] declares by
    default, 65536, an enqueue into the queue at pointer 0 returns
    exactly for batches whose size is a power of two up to 2^16; for
    keys of any other batch size it raises. *)
Theorem default_queue_size_takes_powers_of_two `{B : Backend}
    (p : Argparse.parser) (C : Z) (s : state) keys Q (D : nat) :
  Main.parse_args_pretrain Main.slip_mocov2 = Argparse.Ok p →
  Argparse.get_default p "queue_size" = Some (Argparse.VInt C) →
  queue_size (hparams s) = C →
  queue_contents s = Some Q → shape3 Q = (2, D, Z.to_nat C) →
  queue_ptr s = 0%Z →
  dim0 keys = 2 → dim2 keys = D →
  ((∃ s', _dequeue_and_enqueue keys s = Returned tt s') ↔
     ∃ k, k ≤ 16 ∧ dim1 keys = 2 ^ k).
Proof.
  intros Hrun Hdefault Hsize HQ HshQ Hptr Hk0 Hk2.
  assert (C = 65536%Z) as ->.
  { vm_compute in Hrun. injection Hrun as <-.
    vm_compute in Hdefault. by injection Hdefault as <-. }
  set (Cn := 2 ^ 16).
  assert (Z.of_nat Cn = 65536%Z) as HCz
    by (unfold Cn; rewrite Nat2Z.inj_pow; reflexivity).
  assert (Z.to_nat 65536 = Cn) as HCn
    by (apply Nat2Z.inj; rewrite HCz; by apply Z2Nat.id).
  rewrite HCn in HshQ.
  rewrite <- (divisors_of_a_power_of_two (dim1 keys) 16). fold Cn.
  clearbody Cn. clear HCn.
  assert (queue_size (hparams s) = Z.of_nat Cn) as Hsize' by congruence.
  assert (0 ≤ queue_ptr s < Z.of_nat Cn)%Z as Hptr' by lia.
  pose proof (QueueInvFacts.enqueue_cases s keys Q D Cn HQ HshQ Hsize' Hptr')
    as Hcases.
  cbv zeta in Hcases. rewrite Hptr, HCz in Hcases.
  destruct (_dequeue_and_enqueue keys s) as [[] s1|e1 s1].
  - split; [|by eauto]. intros _. by destruct Hcases as (? & ? & _).
  - destruct Hcases as [_ Hrej]. split; [by intros [s' ?]|].
    intros [Hb Hdiv]. exfalso. apply Hrej.
    split_and!; [done|done|by left|by left|].
    apply Nat.divide_pos_le in Hdiv; lia.
Qed.

Import DefaultScenario.

Lemma default_queue_size_takes_powers_of_two_witness :
  ∃ p,
    Main.parse_args_pretrain Main.slip_mocov2 = Argparse.Ok p ∧
    Argparse.get_default p "queue_size" = Some (Argparse.VInt 65536) ∧
    (∃ s', @_dequeue_and_enqueue QBackend.backend q_keys16 q_default_state
             = Returned tt s') ∧
    ¬ (∃ s', @_dequeue_and_enqueue QBackend.backend q_keys24 q_default_state
               = Returned tt s').
Proof.
  assert (∃ p, Main.parse_args_pretrain Main.slip_mocov2 = Argparse.Ok p ∧
               Argparse.get_default p "queue_size"
               = Some (Argparse.VInt 65536)) as (p & Hrun & Hdefault).
  { eexists. split; [reflexivity|]. vm_compute. reflexivity. }
  exists p. split_and!; [exact Hrun|exact Hdefault| |].
  - apply (@default_queue_size_takes_powers_of_two QBackend.backend
             p 65536%Z q_default_state q_keys16 q_default_queue 1
             Hrun Hdefault eq_refl eq_refl eq_refl eq_refl eq_refl eq_refl).
    exists 4. split; [lia|reflexivity].
  - intros Hret.
    apply (@default_queue_size_takes_powers_of_two QBackend.backend
             p 65536%Z q_default_state q_keys24 q_default_queue 1
             Hrun Hdefault eq_refl eq_refl eq_refl eq_refl eq_refl eq_refl)
      in Hret as (k & _ & Hk).
    change (dim1 q_keys24) with 24 in Hk.
    assert (k < 5) as Hlt.
    { destruct (Nat.lt_ge_cases k 5) as [|Hge]; [done|].
      pose proof (Nat.pow_le_mono_r 2 5 k ltac:(lia) Hge) as Hle.
      change (2 ^ 5) with 32 in Hle. lia. }
    do 5 (destruct k as [|k]; [discriminate Hk|]). lia.
Defined.

End DefaultsFacts.
